(** * MiningService (frontend/src/app/services/mining.service.ts)

    A shallow embedding of the Angular service that derives and caches
    mining-pool statistics, together with the part of the ECMAScript
    run-time it relies on (IEEE-754 binary64 arithmetic,
    [Number.prototype.toFixed], [parseFloat], [parseInt], [Array.indexOf]).

    Layout: [JS] holds the run-time model, [Mining] the service, [Spec] the
    vocabulary of the specification; [JSFacts], [MiningFacts] and
    [DerivationFacts] hold the lemmas, and the theorems on the service close
    the file. *)

From Stdlib Require Import ZArith QArith Qabs Lia Ascii String.
From stdpp Require Import base option list strings gmap.

Local Open Scope Z_scope.

(** ** ECMAScript run-time *)

Module JS.

(** A JavaScript Number.  A finite binary64 value is carried as the exact
    rational it denotes (always in lowest terms, so that Leibniz equality is
    equality of values); the operations below produce binary64 values only,
    through [round64].  The sign of zero is not tracked: the service never
    divides by a zero and never passes one to [Object.is], the only two
    ways to tell [-0] from [+0]. *)
Inductive number :=
  | NaN
  | Infinity (negative : bool)
  | Fin (q : Q).

Definition zero : number := Fin 0.
Definition of_Z (z : Z) : number := Fin (inject_Z z).

(** Nearest integer to [n / d] ([0 <= n], [0 < d]), ties to even. *)
Definition rne (n d : Z) : Z :=
  let q := n / d in
  match 2 * (n mod d) ?= d with
  | Lt => q
  | Gt => q + 1
  | Eq => if Z.even q then q else q + 1
  end.

(** [floor (log2 (n / d))] for [0 < n], [0 < d]. *)
Definition ilog2 (n d : Z) : Z :=
  let k := Z.log2 n - Z.log2 d in
  if (if 0 <=? k then d * 2 ^ k <=? n else d <=? n * 2 ^ (- k))
  then k else k - 1.

(** Rounding of an exact real result to binary64, round-to-nearest,
    ties-to-even (IEEE 754, the mode of every ECMAScript arithmetic
    operator): 53 significant bits, least exponent -1074 (subnormals),
    overflow to an infinity from 2^1024 on. *)
Definition round64 (x : Q) : number :=
  let n := Qnum x in
  let d := Zpos (Qden x) in
  if n =? 0 then Fin 0 else
  let a := Z.abs n in
  let e := Z.max (ilog2 a d - 52) (-1074) in
  if 0 <=? e then
    let m := rne a (d * 2 ^ e) in
    if 2 ^ 1024 <=? m * 2 ^ e then Infinity (n <? 0)
    else Fin (inject_Z (Z.sgn n * (m * 2 ^ e)))
  else
    let m := rne (a * 2 ^ (- e)) d in
    Fin (Qred (Qmake (Z.sgn n * m) (Z.to_pos (2 ^ (- e))))).

Definition is_zero (q : Q) : bool := Qnum q =? 0.
Definition is_neg (q : Q) : bool := Qnum q <? 0.

(** [x + y] *)
Definition add (x y : number) : number :=
  match x, y with
  | NaN, _ | _, NaN => NaN
  | Infinity s, Infinity t => if Bool.eqb s t then Infinity s else NaN
  | Infinity s, Fin _ | Fin _, Infinity s => Infinity s
  | Fin a, Fin b => round64 (a + b)
  end.

(** [x * y] *)
Definition mul (x y : number) : number :=
  match x, y with
  | NaN, _ | _, NaN => NaN
  | Infinity s, Infinity t => Infinity (xorb s t)
  | Infinity s, Fin a | Fin a, Infinity s =>
      if is_zero a then NaN else Infinity (xorb s (is_neg a))
  | Fin a, Fin b => round64 (a * b)
  end.

(** [x / y] *)
Definition div (x y : number) : number :=
  match x, y with
  | NaN, _ | _, NaN => NaN
  | Infinity _, Infinity _ => NaN
  | Infinity s, Fin b => Infinity (xorb s (is_neg b))
  | Fin _, Infinity _ => Fin 0
  | Fin a, Fin b =>
      if is_zero b then (if is_zero a then NaN else Infinity (is_neg a))
      else round64 (a / b)
  end.

(** [x > 0] *)
Definition gt0 (x : number) : bool :=
  match x with
  | NaN => false
  | Infinity s => negb s
  | Fin a => 0 <? Qnum a
  end.

(** ToBoolean on a Number: [0] and [NaN] are falsy. *)
Definition truthy (x : number) : bool :=
  match x with
  | NaN => false
  | Infinity _ => true
  | Fin a => negb (is_zero a)
  end.

(** [x || 0] where [x] may be [undefined] ([None]). *)
Definition or0 (x : option number) : number :=
  match x with
  | Some v => if truthy v then v else zero
  | None => zero
  end.

(** [Math.pow(10, n)] for a non-negative integer [n]. *)
Definition pow10 (n : Z) : number := round64 (inject_Z (10 ^ n)).

(** *** Decimal digits *)

Definition digit_char (d : Z) : ascii := ascii_of_nat (Z.to_nat (48 + d)).

Definition digit_val (c : ascii) : option Z :=
  let n := Z.of_nat (nat_of_ascii c) in
  if (48 <=? n) && (n <=? 57) then Some (n - 48) else None.

Fixpoint digits_go (fuel : nat) (n : Z) (acc : string) : string :=
  match fuel with
  | O => acc
  | S fuel' =>
      let acc' := String (digit_char (n mod 10)) acc in
      if n <? 10 then acc' else digits_go fuel' (n / 10) acc'
  end.

(** The decimal representation of [n >= 0], no leading zero ("0" for 0). *)
Definition digits (n : Z) : string :=
  digits_go (S (Z.to_nat (Z.log2 n))) n "".

(** Reads the longest run of decimal digits at the head of [s]:
    accumulated value, number of digits read, rest of the string. *)
Fixpoint read_digits (s : string) (acc : Z) (cnt : nat) : Z * nat * string :=
  match s with
  | String c s' =>
      match digit_val c with
      | Some d => read_digits s' (10 * acc + d) (S cnt)
      | None => (acc, cnt, s)
      end
  | EmptyString => (acc, cnt, s)
  end.

(** StrWhiteSpaceChar, for the code units below 256. *)
Definition is_space (c : ascii) : bool :=
  let n := nat_of_ascii c in
  bool_decide (n = 9 ∨ n = 10 ∨ n = 11 ∨ n = 12 ∨ n = 13 ∨ n = 32 ∨ n = 160)%nat.

Fixpoint trim_start (s : string) : string :=
  match s with
  | String c s' => if is_space c then trim_start s' else s
  | EmptyString => s
  end.

(** An optional sign at the head of [s]: (is negative, rest). *)
Definition read_sign (s : string) : bool * string :=
  match s with
  | String "-" s' => (true, s')
  | String "+" s' => (false, s')
  | _ => (false, s)
  end.

Definition signed (neg : bool) (q : Q) : Q := if neg then (- q)%Q else q.

(** [parseInt(s, 10)]: leading white space and one sign are skipped, then
    the longest run of decimal digits is read; none gives [NaN].  The
    integer read is rounded to binary64 (beyond 20 significant digits an
    engine may round an approximation of it instead). *)
Definition parseInt10 (s : string) : number :=
  let '(neg, s1) := read_sign (trim_start s) in
  let '(v, cnt, _) := read_digits s1 0 O in
  match cnt with
  | O => NaN
  | S _ => round64 (signed neg (inject_Z v))
  end.

(** [10 ^ e] as a rational, any integer [e]. *)
Definition qpow10 (e : Z) : Q :=
  if 0 <=? e then inject_Z (10 ^ e) else Qmake 1 (Z.to_pos (10 ^ (- e))).

(** An ExponentPart at the head of [s], when there is a well-formed one. *)
Definition read_exponent (s : string) : Z :=
  match s with
  | String c s' =>
      if bool_decide (c = "e"%char ∨ c = "E"%char) then
        let '(neg, s2) := read_sign s' in
        let '(v, cnt, _) := read_digits s2 0 O in
        match cnt with
        | O => 0
        | S _ => if neg then - v else v
        end
      else 0
  | EmptyString => 0
  end.

Definition starts_with (p s : string) : bool :=
  bool_decide (substring 0 (String.length p) s = p).

(** [parseFloat(s)]: the longest prefix of the trimmed string that is a
    StrDecimalLiteral, rounded to binary64; [NaN] when there is none. *)
Definition parseFloat (s : string) : number :=
  let '(neg, s1) := read_sign (trim_start s) in
  if starts_with "Infinity" s1 then Infinity neg else
  let '(iv, icnt, s2) := read_digits s1 0 O in
  let '(fv, fcnt, s3) :=
    match s2 with
    | String "." s2' => read_digits s2' 0 O
    | _ => (0, O, s2)
    end in
  match (icnt + fcnt)%nat with
  | O => NaN
  | S _ =>
      let mant := (inject_Z (iv * 10 ^ Z.of_nat fcnt + fv)
                   * qpow10 (- Z.of_nat fcnt))%Q in
      round64 (signed neg (mant * qpow10 (read_exponent s3))%Q)
  end.

(** Two Numbers denote the same value. *)
Definition same_value (x y : number) : bool :=
  match x, y with
  | NaN, NaN => true
  | Infinity s, Infinity t => Bool.eqb s t
  | Fin a, Fin b => Qeq_bool a b
  | _, _ => false
  end.

(** Removes the zeros at the end of a digit string. *)
Fixpoint strip_zeros (s : string) : string :=
  match s with
  | String c s' =>
      match strip_zeros s' with
      | EmptyString => if bool_decide (c = "0"%char) then "" else String c ""
      | r => String c r
      end
  | EmptyString => ""
  end.

(** The digit search of Number::toString for an integer [v >= 10^21] that is
    a binary64 value: the least number [k] of significant digits such that
    some [s * 10^(len - k)] rounds to [v], and for that [k] the [s] nearest
    to [v] (the even one on a tie).  Result: [s] and the power of ten. *)
Fixpoint shortest_go (fuel : nat) (k : Z) (v len : Z) : Z * Z :=
  match fuel with
  | O => (v, 0)
  | S fuel' =>
      let scale := 10 ^ (len - k) in
      let lo := v / scale in
      let hi := lo + 1 in
      let ok c := same_value (round64 (inject_Z (c * scale))) (of_Z v) in
      match ok lo, ok hi with
      | true, true =>
          match v - lo * scale ?= hi * scale - v with
          | Lt => (lo, len - k)
          | Gt => (hi, len - k)
          | Eq => (if Z.even lo then lo else hi, len - k)
          end
      | true, false => (lo, len - k)
      | false, true => (hi, len - k)
      | false, false => shortest_go fuel' (k + 1) v len
      end
  end.

(** Number::toString(x) for a finite [x] with [|x| >= 10^21]: always the
    exponential form, [d.ddd] followed by [e+nn]. *)
Definition toString_large (q : Q) : string :=
  let v := Z.abs (Qnum q) / Zpos (Qden q) in
  let len := Z.of_nat (String.length (digits v)) in
  let '(s, p) := shortest_go 17 1 v len in
  let ds := digits s in
  let expo := Z.of_nat (String.length ds) - 1 + p in
  let mant :=
    match strip_zeros ds with
    | String c EmptyString => String c ""
    | String c r => String c ("." ++ r)
    | EmptyString => "0"
    end in
  (if is_neg q then "-" else "") ++ mant ++ "e+" ++ digits expo.

(** The integer [n] for which [n / 100] is nearest to [a >= 0], the larger
    one on a tie (step 10.a of Number.prototype.toFixed). *)
Definition fixed2_int (a : Q) : Z :=
  (200 * Qnum a + Zpos (Qden a)) / (2 * Zpos (Qden a)).

(** The digits of [n] with a point before the last two, at least one digit
    before the point ("0.05" for 5). *)
Definition point2 (n : Z) : string :=
  digits (n / 100) ++ "."
    ++ String (digit_char (n / 10 mod 10)) (String (digit_char (n mod 10)) "").

(** [x.toFixed(2)] *)
Definition toFixed2 (x : number) : string :=
  match x with
  | NaN => "NaN"
  | Infinity s => if s then "-Infinity" else "Infinity"
  | Fin q =>
      if Qle_bool (inject_Z (10 ^ 21)) (Qabs q) then toString_large q
      else (if is_neg q then "-" else "") ++ point2 (fixed2_int (Qabs q))
  end.

(** ToNumber of a property that may be absent: [undefined] is [NaN]. *)
Definition num (x : option number) : number := default NaN x.

(** [a.indexOf(x)] on an array of strings: the first index holding a value
    strictly equal to [x], or -1. *)
Fixpoint indexOf_from (a : list string) (x : string) (i : Z) : Z :=
  match a with
  | [] => -1
  | y :: a' => if String.eqb y x then i else indexOf_from a' x (i + 1)
  end.

Definition indexOf (a : list string) (x : string) : Z := indexOf_from a x 0.

End JS.

(** ** The service *)

Module Mining.
Import JS.

Local Open Scope string_scope.
Local Open Scope Z_scope.

(** *** Data *)

(** [interface MiningUnits].  [hashrateUnit] is read from a table by key:
    [None] stands for [undefined]. *)
Module MiningUnits.
Record t := mk { hashrateDivider : number; hashrateUnit : option string }.
End MiningUnits.

(** Modelled from the spec: the declaration of [SinglePoolStats]
    (@interfaces/node-api.interface) as the backend delivers it: one pool's
    raw counters (block count, empty-block count) and its identifiers.  A
    field that is absent from the JSON payload is [None] ([undefined]).
    None of these fields bears the name of a field computed by
    [generateMiningStats], so the spread [...poolStat] that ends the object
    literal there overrides none of the computed ones. *)
Module SinglePoolStats.
Record t := mk {
  id : string;
  name : option string;
  slug : option string;
  blockCount : option number;
  emptyBlocks : option number;
}.
End SinglePoolStats.

(** Modelled from the spec: the declaration of [PoolsStats], the body of
    the reply to [listPools$(interval)]. *)
Module PoolsStats.
Record t := mk {
  blockCount : option number;
  lastEstimatedHashrate : option number;
  lastEstimatedHashrate3d : option number;
  lastEstimatedHashrate1w : option number;
  pools : list SinglePoolStats.t;
}.
End PoolsStats.

(** The reply of the HTTP client: the body and what
    [headers.get('x-total-count')] returns ([None] for [null]). *)
Module Response.
Record t := mk { body : PoolsStats.t; x_total_count : option string }.
End Response.

(** An element of [MiningStats.pools]: the object literal built by the
    callback of [stats.pools.map], the copied raw fields kept together
    under [raw]. *)
Module DerivedPool.
Record t := mk {
  share : number;
  lastEstimatedHashrate : number;
  lastEstimatedHashrate3d : number;
  lastEstimatedHashrate1w : number;
  emptyBlockRatio : string;
  logo : string;
  raw : SinglePoolStats.t;
}.
End DerivedPool.

(** [interface MiningStats] *)
Module MiningStats.
Record t := mk {
  lastEstimatedHashrate : number;
  lastEstimatedHashrate3d : number;
  lastEstimatedHashrate1w : number;
  blockCount : number;
  totalEmptyBlock : number;
  totalEmptyBlockRatio : string;
  pools : list DerivedPool.t;
  miningUnits : MiningUnits.t;
  totalBlockCount : number;
}.
End MiningStats.

(** A JavaScript object with its identity: [oid] is the rank of its
    creation among the MiningStats objects of the run.  Two references are
    to the identical object exactly when their [oid]s agree. *)
Record Obj (A : Type) := mkObj { oid : nat; val : A }.
Arguments mkObj {A} _ _.
Arguments oid {A} _.
Arguments val {A} _.

(** A value of [this.cache]. [lastUpdated] is a [Date.now()], a whole number
    of milliseconds far below 2^53, where binary64 arithmetic is exact. *)
Record CacheEntry := mkEntry { lastUpdated : Z; data : Obj MiningStats.t }.

(** The fields of the service, and what it reads of its collaborators:
    [network] is [this.stateService.network], [miningWindowPreference] what
    [this.storageService.getValue('miningWindowPreference')] returns
    ([None] for [null]), [allocated] the number of MiningStats objects
    created so far.

    [cache] is a JavaScript object used as a map.  A key that is found only
    through the prototype chain ("constructor", ...) yields a value without
    a numeric [lastUpdated], which the test of [getMiningStats] treats as an
    absent key, and assigning to it then creates the entry: the lookups the
    service makes are those of a finite map. *)
Record MiningService := mkService {
  network : string;
  miningWindowPreference : option string;
  cache : gmap string CacheEntry;
  poolsData : list SinglePoolStats.t;
  allocated : nat;
}.

(** The outcome of one [listPools$] request. *)
Inductive Reply (A : Type) :=
  | Ok (response : A)
  | Failed.
Arguments Ok {A} _.
Arguments Failed {A}.

(** *** Divisions on record

    [generateMiningStats] is written in a writer monad that logs the divisor
    of every division it performs, in evaluation order; the value computed
    is that of the JavaScript expression. *)
Definition Traced (A : Type) : Type := A * list number.

Definition ret {A} (x : A) : Traced A := (x, []).

Definition bind {A B} (m : Traced A) (f : A → Traced B) : Traced B :=
  let '(x, l1) := m in
  let '(y, l2) := f x in
  (y, (l1 ++ l2)%list).

Notation "x <- m ;; k" := (bind m (fun x => k))
  (at level 100, m at next level, right associativity).

(** [a / b] *)
Definition divide (a b : number) : Traced number := (div a b, [b]).

Fixpoint mapT {A B} (f : A → Traced B) (l : list A) : Traced (list B) :=
  match l with
  | [] => ret []
  | x :: l' => y <- f x ;; ys <- mapT f l' ;; ret (y :: ys)
  end.

(** *** Operations *)

Definition powerTable : list (Z * string) :=
  [(0, "H/s"); (3, "kH/s"); (6, "MH/s"); (9, "GH/s");
   (12, "TH/s"); (15, "PH/s"); (18, "EH/s")].

(** [powerTable[k]] *)
Fixpoint table_get (t : list (Z * string)) (k : Z) : option string :=
  match t with
  | [] => None
  | (k', v) :: t' => if k' =? k then Some v else table_get t' k
  end.

Definition getMiningUnits (s : MiningService) : MiningUnits.t :=
  let selectedPower :=
    if String.eqb (network s) "testnet" || String.eqb (network s) "testnet4"
    then 12 else 18 in
  MiningUnits.mk (pow10 selectedPower) (table_get powerTable selectedPower).

Definition timespans : list string :=
  ["24h"; "3d"; "1w"; "1m"; "3m"; "6m"; "1y"; "2y"; "3y"; "all"].

Definition getDefaultTimespan (s : MiningService) (min : string) : string :=
  let preference := default "1w" (miningWindowPreference s) in
  if indexOf timespans preference <? indexOf timespans min then min
  else preference.

(** ['/resources/mining-pools/' + slug + (slug === 'unknown' ? '.png' : '.svg')];
    an absent slug is printed "undefined". *)
Definition logo_of (slug : option string) : string :=
  "/resources/mining-pools/" ++ default "undefined" slug
    ++ (if bool_decide (slug = Some "unknown") then ".png" else ".svg").

Definition derivePool (stats : PoolsStats.t) (safeBlockCount hashrateDivider : number)
    (poolStat : SinglePoolStats.t) : Traced DerivedPool.t :=
  let poolBlockCount := num (SinglePoolStats.blockCount poolStat) in
  let blockCount := num (PoolsStats.blockCount stats) in
  share <-
    (if gt0 blockCount
     then q <- divide poolBlockCount blockCount ;;
          ret (parseFloat (toFixed2 (mul q (of_Z 100))))
     else ret zero) ;;
  q1 <- divide poolBlockCount safeBlockCount ;;
  h <- divide (mul q1 (or0 (PoolsStats.lastEstimatedHashrate stats))) hashrateDivider ;;
  q3 <- divide poolBlockCount safeBlockCount ;;
  h3d <- divide (mul q3 (or0 (PoolsStats.lastEstimatedHashrate3d stats))) hashrateDivider ;;
  q7 <- divide poolBlockCount safeBlockCount ;;
  h1w <- divide (mul q7 (or0 (PoolsStats.lastEstimatedHashrate1w stats))) hashrateDivider ;;
  emptyBlockRatio <-
    (if gt0 poolBlockCount
     then q <- divide (or0 (SinglePoolStats.emptyBlocks poolStat)) poolBlockCount ;;
          ret (toFixed2 (mul q (of_Z 100)))
     else ret "0.00") ;;
  ret (DerivedPool.mk share h h3d h1w emptyBlockRatio
         (logo_of (SinglePoolStats.slug poolStat)) poolStat).

(** [stats.blockCount > 0 ? stats.blockCount : 1] *)
Definition safeBlockCount (stats : PoolsStats.t) : number :=
  if gt0 (num (PoolsStats.blockCount stats))
  then num (PoolsStats.blockCount stats) else of_Z 1.

Definition generateMiningStats (s : MiningService) (response : Response.t)
    : Traced MiningStats.t :=
  let stats := Response.body response in
  let miningUnits := getMiningUnits s in
  let hashrateDivider := MiningUnits.hashrateDivider miningUnits in
  let blockCount := num (PoolsStats.blockCount stats) in
  let safeBlockCount := safeBlockCount stats in
  let totalEmptyBlock :=
    fold_left (fun prev cur => add prev (or0 (SinglePoolStats.emptyBlocks cur)))
              (PoolsStats.pools stats) zero in
  totalEmptyBlockRatio <-
    (if gt0 blockCount
     then q <- divide totalEmptyBlock blockCount ;;
          ret (toFixed2 (mul q (of_Z 100)))
     else ret "0.00") ;;
  poolsStats <- mapT (derivePool stats safeBlockCount hashrateDivider)
                    (PoolsStats.pools stats) ;;
  h <- divide (or0 (PoolsStats.lastEstimatedHashrate stats)) hashrateDivider ;;
  h3d <- divide (or0 (PoolsStats.lastEstimatedHashrate3d stats)) hashrateDivider ;;
  h1w <- divide (or0 (PoolsStats.lastEstimatedHashrate1w stats)) hashrateDivider ;;
  ret (MiningStats.mk h h3d h1w
         (or0 (PoolsStats.blockCount stats))
         totalEmptyBlock totalEmptyBlockRatio poolsStats miningUnits
         (parseInt10 (match Response.x_total_count response with
                      | Some h => if bool_decide (h = "") then "0" else h
                      | None => "0"
                      end))).

(** The object literal of the [catchError] handler. *)
Definition empty (s : MiningService) : MiningStats.t :=
  MiningStats.mk zero zero zero zero zero "0.00" [] (getMiningUnits s) zero.

(** The pipeline of the [else] branch of [getMiningStats], run to its one
    emission: [map] derives the statistics from the reply, [catchError]
    replaces a failure by the empty statistics, [tap] writes what comes out
    of the two into the cache at [now'], the [Date.now()] of that moment. *)
Definition requestStats (s : MiningService) (interval : string)
    (reply : Reply Response.t) (now' : Z) : Obj MiningStats.t * MiningService :=
  let stats :=
    mkObj (allocated s)
      (match reply with
       | Ok response => fst (generateMiningStats s response)
       | Failed => empty s
       end) in
  (stats,
   mkService (network s) (miningWindowPreference s)
     (<[interval := mkEntry now' stats]> (cache s))
     (poolsData s) (S (allocated s))).

(** [getMiningStats(interval)], subscribed to and run to its one emission.
    [now] is the [Date.now()] of the call; [reply] is the outcome of the
    request and [now'] the [Date.now()] at its arrival, both consulted only
    when the request is made.  Result: the object emitted, the service
    afterwards, and whether [listPools$] was requested. *)
Definition getMiningStats (s : MiningService) (interval : string) (now : Z)
    (reply : Reply Response.t) (now' : Z) : Obj MiningStats.t * MiningService * bool :=
  match cache s !! interval with
  | Some e =>
      if now - 5 * 60000 <? lastUpdated e then (data e, s, false)
      else (requestStats s interval reply now', true)
  | None => (requestStats s interval reply now', true)
  end.

(** [getPools()], subscribed to and run to its emission: the sequence
    emitted, the service afterwards, whether a request was made. *)
Definition getPools (s : MiningService) (reply : Reply (list SinglePoolStats.t))
    : list SinglePoolStats.t * MiningService * bool :=
  match poolsData s with
  | _ :: _ => (poolsData s, s, false)
  | [] =>
      match reply with
      | Ok body =>
          (body,
           mkService (network s) (miningWindowPreference s) (cache s) body
             (allocated s),
           true)
      | Failed => ([], s, true)
      end
  end.

Definition clearCache (s : MiningService) : MiningService :=
  mkService (network s) (miningWindowPreference s) ∅ [] (allocated s).

(** The service as the constructor leaves it. *)
Definition constructor (network : string) (preference : option string)
    : MiningService :=
  mkService network preference ∅ [] O.

(** The callback the constructor subscribes to [networkChanged$]. *)
Definition onNetworkChanged (network : string) (s : MiningService) : MiningService :=
  clearCache s.

(** Modelled from the spec: the notifier of StateService (not part of this
    file) fires when the current network token changes; the service then
    reads the new token and its subscriber runs. *)
Definition networkChanged (net : string) (s : MiningService) : MiningService :=
  onNetworkChanged net
    (mkService net (miningWindowPreference s) (cache s) (poolsData s)
       (allocated s)).

(** The test at the head of [getMiningStats], made at the moment the method
    is called: the cached object when the key has an entry younger than five
    minutes, [None] when the method answers with the request pipeline. *)
Definition lookupFresh (s : MiningService) (interval : string) (now : Z)
    : option (Obj MiningStats.t) :=
  match cache s !! interval with
  | Some e => if now - 5 * 60000 <? lastUpdated e then Some (data e) else None
  | None => None
  end.

End Mining.

(** ** Vocabulary of the specification *)

Module Spec.
Import JS Mining.

Local Open Scope string_scope.
Local Open Scope Z_scope.

(** A Number that is finite and lies in the closed interval [0, 100]. *)
Definition in_0_100 (x : number) : bool :=
  match x with
  | Fin q => Qle_bool 0 q && Qle_bool q (inject_Z 100)
  | _ => false
  end.

(** The rank of a token in an ordered list, in the words of the
    specification: its position when it occurs, and below every position
    (-1) when it does not. *)
Definition rank (l : list string) (x : string) : Z :=
  match list_find (fun y => y = x) l with
  | Some (i, _) => Z.of_nat i
  | None => -1
  end.

(** The counters of a payload fit together: the total block count is a
    finite number, every pool has a finite block count between 0 and the
    total, and an empty-block count (0 when absent) between 0 and its own
    block count. *)
Definition consistent (stats : PoolsStats.t) : Prop :=
  exists total : Q,
    PoolsStats.blockCount stats = Some (Fin total)
    /\ forall p, In p (PoolsStats.pools stats) ->
       exists blocks empties : Q,
         SinglePoolStats.blockCount p = Some (Fin blocks)
         /\ or0 (SinglePoolStats.emptyBlocks p) = Fin empties
         /\ (0 <= empties)%Q /\ (empties <= blocks)%Q /\ (blocks <= total)%Q.

(** A header value that does not denote a number: once the leading white
    space and one sign are passed, what follows does not start with a
    decimal digit. *)
Definition non_numeric (h : string) : Prop :=
  match snd (read_sign (trim_start h)) with
  | String c _ => digit_val c = None
  | EmptyString => True
  end.

(** The network tokens the service treats as test networks. *)
Definition test_network (net : string) : Prop :=
  net = "testnet" \/ net = "testnet4".

(** The payload of the end-to-end example: 100 blocks, an estimate of 5e20
    hashes per second, pool A with 60 blocks of which 1 is empty and pool B
    with 40 blocks and no empty one. *)
Definition example_payload : PoolsStats.t :=
  PoolsStats.mk (Some (of_Z 100)) (Some (of_Z (5 * 10 ^ 20))) None None
    [SinglePoolStats.mk "A" None None (Some (of_Z 60)) (Some (of_Z 1));
     SinglePoolStats.mk "B" None None (Some (of_Z 40)) (Some (of_Z 0))].

(** A payload whose counters do not fit together: one block in total, and
    a pool credited with 5 blocks, 10 of them empty. *)
Definition skewed_payload : PoolsStats.t :=
  PoolsStats.mk (Some (of_Z 1)) None None None
    [SinglePoolStats.mk "A" None None (Some (of_Z 5)) (Some (of_Z 10))].

(** A payload without blocks or pools. *)
Definition blank_payload : PoolsStats.t :=
  PoolsStats.mk (Some zero) None None None [].

(** A payload with a block count of 0 that still lists two pools: one
    without blocks, one credited with 2 blocks of which 1 is empty. *)
Definition idle_payload : PoolsStats.t :=
  PoolsStats.mk (Some zero) None None None
    [SinglePoolStats.mk "A" None None (Some zero) None;
     SinglePoolStats.mk "B" None None (Some (of_Z 2)) (Some (of_Z 1))].

(** What the derivation owes a pool of a payload without blocks: the
    derived pool is that pool's, its share is 0, and its empty-block ratio
    is "0.00" when the pool itself has no blocks. *)
Definition idle_pool (p : SinglePoolStats.t) (d : DerivedPool.t) : Prop :=
  DerivedPool.raw d = p
  /\ DerivedPool.share d = zero
  /\ (SinglePoolStats.blockCount p = Some zero ->
      DerivedPool.emptyBlockRatio d = "0.00").

(** The service just constructed on the main network, nothing stored. *)
Definition main_service : MiningService := constructor "" None.

End Spec.

(** ** Runs of the service *)

Module Run.
Import JS Mining.

Local Open Scope Z_scope.

(** What happens to the service once it is constructed: a caller runs
    [getMiningStats] or [getPools] to its emission, the reply to a request
    that an earlier [getMiningStats] has left pending arrives and runs
    through the pipeline, or the network-change notifier fires. *)
Inductive Event :=
  | GetMiningStats (interval : string) (now : Z) (reply : Reply Response.t) (now' : Z)
  | ReplyArrives (interval : string) (reply : Reply Response.t) (now' : Z)
  | GetPools (reply : Reply (list SinglePoolStats.t))
  | NetworkChanged (net : string).

(** The service after one event. *)
Definition step (s : MiningService) (ev : Event) : MiningService :=
  match ev with
  | GetMiningStats interval now reply now' =>
      snd (fst (getMiningStats s interval now reply now'))
  | ReplyArrives interval reply now' => snd (requestStats s interval reply now')
  | GetPools reply => snd (fst (getPools s reply))
  | NetworkChanged net => networkChanged net s
  end.

(** The service after a sequence of events, the first of the list first. *)
Definition run (s : MiningService) (events : list Event) : MiningService :=
  fold_left step events s.

(** Every cached statistics object carries the units of the network the
    service is on. *)
Definition units_current (s : MiningService) : Prop :=
  forall key e, cache s !! key = Some e ->
    MiningStats.miningUnits (val (data e)) = getMiningUnits s.

(** Every cached object was created by the service: its identity stamp is
    below the number of objects created so far. *)
Definition ids_allocated (s : MiningService) : Prop :=
  forall key e, cache s !! key = Some e -> (oid (data e) < allocated s)%nat.

(** The sum of a list of integers. *)
Definition sum (l : list Z) : Z := fold_right Z.add 0 l.

(** The cache writes of a run from [s]: for every event that ran a reply
    through the pipeline of [getMiningStats] (a call that made a request,
    or the arrival of a pending reply), the key written and the
    [Date.now()] of the arrival, in order.  A call answered from the cache
    writes nothing. *)
Fixpoint writes (s : MiningService) (events : list Event) : list (string * Z) :=
  match events with
  | [] => []
  | ev :: events' =>
      (match ev with
       | GetMiningStats interval now reply now' =>
           if snd (getMiningStats s interval now reply now')
           then [(interval, now')] else []
       | ReplyArrives interval reply now' => [(interval, now')]
       | GetPools _ => []
       | NetworkChanged _ => []
       end ++ writes (step s ev) events')%list
  end.

(** The pool lists received in a run from [s]: the bodies of the successful
    replies to the [getPools] calls that made a request, in order.  A call
    answered from the list held makes no request and receives nothing. *)
Fixpoint received (s : MiningService) (events : list Event)
    : list (list SinglePoolStats.t) :=
  match events with
  | [] => []
  | ev :: events' =>
      (match ev with
       | GetPools (Ok body) => if snd (getPools s (Ok body)) then [body] else []
       | _ => []
       end ++ received (step s ev) events')%list
  end.

(** Two calls of [getMiningStats] for one key, the second made before the
    reply to the first has arrived: both tests read the service as it is
    before either reply, and the replies of the calls that went to the
    backend then run through the pipeline, the first call's first.  For
    each call: the object emitted and whether it made a request. *)
Definition overlappingCalls (s : MiningService) (interval : string)
    (t1 t2 : Z) (reply1 : Reply Response.t) (t1' : Z)
    (reply2 : Reply Response.t) (t2' : Z)
    : (Obj MiningStats.t * bool) * (Obj MiningStats.t * bool) :=
  match lookupFresh s interval t1, lookupFresh s interval t2 with
  | Some stats1, Some stats2 => ((stats1, false), (stats2, false))
  | Some stats1, None =>
      ((stats1, false), (fst (requestStats s interval reply2 t2'), true))
  | None, Some stats2 =>
      ((fst (requestStats s interval reply1 t1'), true), (stats2, false))
  | None, None =>
      let first := requestStats s interval reply1 t1' in
      ((fst first, true),
       (fst (requestStats (snd first) interval reply2 t2'), true))
  end.

(** A pool of which only the counters are known. *)
Definition counted (blocks : option Z) (empties : option Z) : SinglePoolStats.t :=
  SinglePoolStats.mk "" None None (of_Z <$> blocks) (of_Z <$> empties).

End Run.

(** ** Facts about the run-time model *)

Module JSFacts.
Import JS.

(** *** Rounding to the nearest integer *)

Lemma rne_nonneg (n d : Z) : 0 <= n -> 0 < d -> 0 <= rne n d.
Proof.
  intros Hn Hd. unfold rne.
  assert (0 <= n / d) by (apply Z.div_pos; lia).
  destruct (2 * (n mod d) ?= d); [destruct (Z.even (n / d)) | |]; lia.
Qed.

Lemma rne_le (n d M : Z) : 0 <= n -> 0 < d -> n <= M * d -> rne n d <= M.
Proof.
  intros Hn Hd HM. unfold rne.
  pose proof (Z.div_mod n d ltac:(lia)) as Hdm.
  pose proof (Z.mod_pos_bound n d Hd) as Hr.
  destruct (2 * (n mod d) ?= d) eqn:Hc.
  - apply Z.compare_eq in Hc.
    assert (n / d < M) by nia.
    destruct (Z.even (n / d)); lia.
  - nia.
  - apply Z.compare_gt_iff in Hc. assert (n / d < M) by nia. lia.
Qed.

(** *** Rounding to binary64 *)

Lemma ilog2_le (n d : Z) : ilog2 n d <= Z.log2 n - Z.log2 d.
Proof.
  unfold ilog2.
  repeat match goal with |- context [if ?c then _ else _] => destruct c end; lia.
Qed.

Lemma Qle_0_num (x : Q) : (0 <= x)%Q <-> 0 <= Qnum x.
Proof. unfold Qle. simpl. lia. Qed.

(** A non-negative real at most the integer [K <= 2^52] rounds to a finite
    binary64 value that is again between 0 and [K]. *)
Lemma round64_bounded (x : Q) (K : Z) :
  (0 <= x)%Q -> (x <= inject_Z K)%Q -> K <= 2 ^ 52 ->
  exists r, round64 x = Fin r /\ (0 <= r)%Q /\ (r <= inject_Z K)%Q.
Proof.
  destruct x as [n d]. intros H0 HK HK52.
  apply Qle_0_num in H0. unfold Qle in HK. simpl in H0, HK.
  unfold round64. simpl Qnum. simpl Qden.
  destruct (n =? 0) eqn:Hn0.
  - exists 0%Q. apply Z.eqb_eq in Hn0. subst n.
    repeat split; unfold Qle; simpl; lia.
  - apply Z.eqb_neq in Hn0.
    assert (Hn : 0 < n) by lia.
    rewrite (Z.abs_eq n) by lia. rewrite (Z.sgn_pos n) by lia.
    set (dz := Z.pos d) in *.
    assert (Hd : 0 < dz) by (subst dz; lia).
    assert (HE : ilog2 n dz <= 52).
    { pose proof (ilog2_le n dz) as Hi.
      assert (Z.log2 n <= Z.log2 (dz * 2 ^ 52)).
      { apply Z.log2_le_mono. nia. }
      rewrite Z.log2_mul_pow2 in H by lia. lia. }
    remember (Z.max (ilog2 n dz - 52) (-1074)) as e eqn:He.
    assert (Hle : e <= 0) by lia.
    clear He.
    destruct (0 <=? e) eqn:Hpos.
    + apply Z.leb_le in Hpos. assert (e = 0) as -> by lia.
      change (2 ^ 0) with 1. rewrite !Z.mul_1_r.
      pose proof (rne_nonneg n dz ltac:(lia) Hd) as Hm0.
      pose proof (rne_le n dz K ltac:(lia) Hd ltac:(lia)) as HmK.
      assert (Hov : (2 ^ 1024 <=? rne n dz) = false).
      { apply Z.leb_gt.
        assert (2 ^ 52 < 2 ^ 1024) by (apply Z.pow_lt_mono_r; lia). lia. }
      rewrite Hov. exists (inject_Z (1 * rne n dz)).
      repeat split; unfold Qle; simpl; lia.
    + apply Z.leb_gt in Hpos.
      set (P := 2 ^ (- e)).
      assert (HP : 0 < P) by (subst P; apply Z.pow_pos_nonneg; lia).
      pose proof (rne_nonneg (n * P) dz ltac:(nia) Hd) as Hm0.
      pose proof (rne_le (n * P) dz (K * P) ltac:(nia) Hd ltac:(nia)) as HmK.
      eexists. split; [reflexivity |].
      rewrite !Qred_correct. unfold Qle. simpl.
      rewrite Z2Pos.id by lia. split; nia.
Qed.

(** *** Decimal digits: what [digits] writes, [read_digits] reads back *)

Lemma digit_val_char (d : Z) : 0 <= d < 10 -> digit_val (digit_char d) = Some d.
Proof.
  intros H.
  assert (d = 0 \/ d = 1 \/ d = 2 \/ d = 3 \/ d = 4 \/ d = 5 \/ d = 6
          \/ d = 7 \/ d = 8 \/ d = 9) as Hd by lia.
  repeat (destruct Hd as [-> | Hd]; [reflexivity |]). subst d. reflexivity.
Qed.

(** A character that is a decimal digit is no white space, no sign and not
    the first letter of "Infinity". *)
Lemma digit_head (c : ascii) (d : Z) (s : string) :
  digit_val c = Some d ->
  trim_start (String c s) = String c s
  /\ read_sign (String c s) = (false, String c s)
  /\ starts_with "Infinity" (String c s) = false.
Proof.
  intros H.
  assert (is_space c = false /\ c <> "-"%char /\ c <> "+"%char /\ c <> "I"%char)
    as (Hs & Hm & Hp & HI).
  { destruct c as [[] [] [] [] [] [] [] []]; vm_compute in H; try discriminate H;
      repeat split; try reflexivity; discriminate. }
  repeat split.
  - simpl. now rewrite Hs.
  - unfold read_sign.
    destruct c as [[] [] [] [] [] [] [] []]; try reflexivity; congruence.
  - unfold starts_with. apply bool_decide_eq_false. simpl. congruence.
Qed.

Lemma digits_go_append (fuel : nat) (n : Z) (acc rest : string) :
  (digits_go fuel n acc ++ rest)%string = digits_go fuel n (acc ++ rest)%string.
Proof.
  revert n acc. induction fuel as [| fuel IH]; intros n acc; simpl; [reflexivity |].
  destruct (n <? 10); [reflexivity | apply IH].
Qed.

Lemma digits_go_head (fuel : nat) (n : Z) (acc : string) :
  0 <= n ->
  exists c s d, digits_go (S fuel) n acc = String c s /\ digit_val c = Some d.
Proof.
  revert n acc. induction fuel as [| fuel IH]; intros n acc Hn.
  - simpl. exists (digit_char (n mod 10)), acc, (n mod 10).
    split; [now destruct (n <? 10) |].
    apply digit_val_char. apply Z.mod_pos_bound. lia.
  - change (digits_go (S (S fuel)) n acc)
      with (let acc' := String (digit_char (n mod 10)) acc in
            if n <? 10 then acc' else digits_go (S fuel) (n / 10) acc').
    cbv zeta. destruct (n <? 10).
    + exists (digit_char (n mod 10)), acc, (n mod 10).
      split; [reflexivity |]. apply digit_val_char. apply Z.mod_pos_bound. lia.
    + apply IH. apply Z.div_pos; lia.
Qed.

Lemma digits_go_read (fuel : nat) (n : Z) :
  0 <= n < 2 ^ Z.of_nat (S fuel) ->
  exists L : nat,
    forall acc v c,
      read_digits (digits_go (S fuel) n acc) v c
      = read_digits acc (v * 10 ^ Z.of_nat L + n) (c + L)%nat.
Proof.
  revert n. induction fuel as [| fuel IH]; intros n Hn.
  - exists 1%nat. intros acc v c. change (2 ^ Z.of_nat 1) with 2 in Hn.
    simpl digits_go. replace (n <? 10) with true by (symmetry; apply Z.ltb_lt; lia).
    simpl read_digits. rewrite digit_val_char by (apply Z.mod_pos_bound; lia).
    rewrite Z.mod_small by lia. f_equal; [| lia].
    change (10 ^ Z.of_nat 1) with 10. lia.
  - change (digits_go (S (S fuel)) n)
      with (fun acc => let acc' := String (digit_char (n mod 10)) acc in
            if n <? 10 then acc' else digits_go (S fuel) (n / 10) acc').
    cbv beta zeta. destruct (n <? 10) eqn:Hlt.
    + apply Z.ltb_lt in Hlt. exists 1%nat. intros acc v c.
      simpl read_digits. rewrite digit_val_char by (apply Z.mod_pos_bound; lia).
      rewrite Z.mod_small by lia. f_equal; [| lia].
      change (10 ^ Z.of_nat 1) with 10. lia.
    + apply Z.ltb_ge in Hlt.
      destruct (IH (n / 10)) as [L HL].
      { split; [apply Z.div_pos; lia |].
        apply Z.div_lt_upper_bound; [lia |].
        rewrite (Nat2Z.inj_succ (S fuel)) in Hn. rewrite Z.pow_succ_r in Hn by lia.
        lia. }
      exists (S L). intros acc v c. rewrite HL.
      simpl read_digits. rewrite digit_val_char by (apply Z.mod_pos_bound; lia).
      f_equal; [| lia].
      rewrite (Nat2Z.inj_succ L). rewrite Z.pow_succ_r by lia.
      pose proof (Z.div_mod n 10 ltac:(lia)). lia.
Qed.

Lemma digits_fuel (n : Z) : 0 <= n -> n < 2 ^ Z.of_nat (S (Z.to_nat (Z.log2 n))).
Proof.
  intros Hn. rewrite Nat2Z.inj_succ. rewrite Z2Nat.id by apply Z.log2_nonneg.
  destruct (Z.eq_dec n 0) as [-> | Hne]; [reflexivity |].
  apply Z.log2_spec. lia.
Qed.

(** Reading the digits of [n] in front of any text gives [n] back. *)
Lemma read_digits_digits (n : Z) :
  0 <= n ->
  exists L : nat,
    forall rest v c,
      read_digits (digits n ++ rest)%string v c
      = read_digits rest (v * 10 ^ Z.of_nat L + n) (c + L)%nat.
Proof.
  intros Hn. unfold digits.
  destruct (digits_go_read (Z.to_nat (Z.log2 n)) n) as [L HL].
  { split; [lia | now apply digits_fuel]. }
  exists L. intros rest v c. rewrite digits_go_append. apply HL.
Qed.

Lemma digits_head (n : Z) (rest : string) :
  0 <= n ->
  exists c s d, (digits n ++ rest)%string = String c s /\ digit_val c = Some d.
Proof.
  intros Hn. unfold digits. rewrite digits_go_append. now apply digits_go_head.
Qed.

Lemma read_digits_two (a b : Z) :
  0 <= a < 10 -> 0 <= b < 10 ->
  read_digits (String (digit_char a) (String (digit_char b) "")) 0 0
  = (10 * (10 * 0 + a) + b, 2%nat, ""%string).
Proof.
  intros Ha Hb. cbn [read_digits]. rewrite (digit_val_char a Ha).
  rewrite (digit_val_char b Hb). reflexivity.
Qed.

(** [parseFloat] reads the text written by [point2] as the hundredths it
    denotes. *)
Lemma parseFloat_point2 (n : Z) :
  0 <= n ->
  exists x : Q, parseFloat (point2 n) = round64 x /\ (x == Qmake n 100)%Q.
Proof.
  intros Hn.
  set (rest := ("." ++ String (digit_char (n / 10 mod 10))
                         (String (digit_char (n mod 10)) ""))%string).
  assert (H100 : 0 <= n / 100) by (apply Z.div_pos; lia).
  destruct (digits_head (n / 100) rest H100) as (c & s & d & Hhead & Hc).
  destruct (digit_head c d s Hc) as (Ht & Hs & HI).
  destruct (read_digits_digits (n / 100) H100) as [L HL].
  unfold parseFloat, point2. fold rest. rewrite Hhead, Ht, Hs, HI, <- Hhead, HL.
  subst rest.
  assert (Hdot : forall r v k,
             read_digits ("." ++ r)%string v k = (v, k, String "." r))
    by reflexivity.
  rewrite Hdot. cbv beta iota.
  rewrite read_digits_two by (apply Z.mod_pos_bound; lia).
  cbv beta iota.
  replace (0 + L + 2)%nat with (S (S L)) by lia. cbv iota.
  eexists. split; [reflexivity |].
  change (qpow10 (- Z.of_nat 2)) with (1 # 100)%Q.
  change (qpow10 (read_exponent "")) with (inject_Z 1).
  change (10 ^ Z.of_nat 2) with 100. rewrite Z.mul_0_l, Z.mul_0_r, !Z.add_0_l.
  replace (n / 100 * 100 + (10 * (n / 10 mod 10) + n mod 10)) with n
    by (Z.to_euclidean_division_equations; lia).
  unfold signed, Qeq. simpl. lia.
Qed.

(** *** Percentages *)

Lemma div_unit (a b : Q) :
  (0 <= a)%Q -> (a <= b)%Q -> (0 < b)%Q ->
  exists r, div (Fin a) (Fin b) = Fin r /\ (0 <= r)%Q /\ (r <= 1)%Q.
Proof.
  intros Ha Hab Hb. unfold div.
  assert (is_zero b = false) as ->.
  { unfold is_zero. apply Z.eqb_neq. unfold Qlt in Hb. simpl in Hb. lia. }
  apply (round64_bounded (a / b) 1).
  - apply Qle_shift_div_l; [exact Hb |]. now rewrite Qmult_0_l.
  - apply Qle_shift_div_r; [exact Hb |]. now rewrite Qmult_1_l.
  - lia.
Qed.

Lemma mul_100 (r : Q) :
  (0 <= r)%Q -> (r <= 1)%Q ->
  exists t, mul (Fin r) (of_Z 100) = Fin t /\ (0 <= t)%Q /\ (t <= inject_Z 100)%Q.
Proof.
  intros H0 H1. unfold mul, of_Z.
  apply (round64_bounded (r * inject_Z 100) 100).
  - apply Qmult_le_0_compat; [exact H0 | discriminate].
  - apply Qle_trans with (1 * inject_Z 100)%Q.
    + apply Qmult_le_compat_r; [exact H1 | discriminate].
    + unfold Qle. simpl. lia.
  - lia.
Qed.

Lemma toFixed2_range (t : Q) :
  (0 <= t)%Q -> (t <= inject_Z 100)%Q ->
  exists n, toFixed2 (Fin t) = point2 n /\ 0 <= n <= 10000.
Proof.
  intros H0 H100. unfold toFixed2.
  assert (Qabs t = t) as ->.
  { destruct t as [n d]. apply Qle_0_num in H0. simpl in *.
    now rewrite Z.abs_eq. }
  assert (Qle_bool (inject_Z (10 ^ 21)) t = false) as ->.
  { destruct (Qle_bool (inject_Z (10 ^ 21)) t) eqn:Hc; [| reflexivity].
    apply Qle_bool_iff in Hc.
    pose proof (Qle_trans _ _ _ Hc H100) as Habs.
    unfold Qle in Habs. simpl in Habs. lia. }
  assert (is_neg t = false) as ->.
  { unfold is_neg. apply Z.ltb_ge. now apply Qle_0_num. }
  exists (fixed2_int t). split; [reflexivity |].
  unfold fixed2_int. destruct t as [n d]. apply Qle_0_num in H0.
  unfold Qle in H100. simpl in *. split.
  - apply Z.div_pos; lia.
  - apply Z.lt_succ_r. apply Z.div_lt_upper_bound; lia.
Qed.

Lemma parseFloat_point2_range (n : Z) :
  0 <= n <= 10000 -> Spec.in_0_100 (parseFloat (point2 n)) = true.
Proof.
  intros Hn. destruct (parseFloat_point2 n ltac:(lia)) as (x & -> & Hx).
  destruct (round64_bounded x 100) as (r & -> & Hr0 & Hr100).
  - rewrite Hx. unfold Qle. simpl. lia.
  - rewrite Hx. unfold Qle. simpl. lia.
  - lia.
  - unfold Spec.in_0_100. apply andb_true_intro.
    split; now apply Qle_bool_iff.
Qed.

(** [(a / b * 100).toFixed(2)], read back as a number, for a part [a] of a
    whole [b]: a percentage between 0 and 100. *)
Lemma percentage_in_range (a b : Q) :
  (0 <= a)%Q -> (a <= b)%Q -> (0 < b)%Q ->
  Spec.in_0_100
    (parseFloat (toFixed2 (mul (div (Fin a) (Fin b)) (of_Z 100)))) = true.
Proof.
  intros Ha Hab Hb.
  destruct (div_unit a b Ha Hab Hb) as (r & -> & Hr0 & Hr1).
  destruct (mul_100 r Hr0 Hr1) as (t & -> & Ht0 & Ht100).
  destruct (toFixed2_range t Ht0 Ht100) as (n & -> & Hn).
  now apply parseFloat_point2_range.
Qed.

(** *** The model on known values *)

Example binary64_sum_of_tenths :
  add (round64 (1 # 10)) (round64 (2 # 10))
  = Fin (1351079888211149 # 4503599627370496)
  /\ round64 (3 # 10) = Fin (5404319552844595 # 18014398509481984).
Proof. split; vm_compute; reflexivity. Qed.

Example binary64_product :
  mul (round64 (7 # 100)) (of_Z 100) = Fin (7881299347898369 # 1125899906842624)
  /\ mul (round64 (6 # 10)) (of_Z 100) = of_Z 60.
Proof. split; vm_compute; reflexivity. Qed.

Example binary64_limits :
  round64 (inject_Z (2 ^ 1024)) = Infinity false
  /\ round64 (inject_Z (2 ^ 53 + 1)) = of_Z (2 ^ 53)
  /\ round64 (1 # Z.to_pos (2 ^ 1075)) = Fin 0
  /\ div (of_Z 1) zero = Infinity false
  /\ div zero zero = NaN.
Proof. repeat split; vm_compute; reflexivity. Qed.

Example toFixed2_known :
  toFixed2 (round64 (1005 # 1000)) = "1.00"%string
  /\ toFixed2 (round64 (2675 # 1000)) = "2.67"%string
  /\ toFixed2 (mul (div (of_Z 1) (of_Z 60)) (of_Z 100)) = "1.67"%string
  /\ toFixed2 (round64 (- (1 # 1000))) = "-0.00"%string
  /\ toFixed2 (of_Z (10 ^ 21)) = "1e+21"%string
  /\ toFixed2 (of_Z (2 ^ 70)) = "1.1805916207174113e+21"%string
  /\ toFixed2 (div (of_Z 1) zero) = "Infinity"%string.
Proof. repeat split; vm_compute; reflexivity. Qed.

Example parse_known :
  parseFloat "60.00" = of_Z 60
  /\ parseFloat "  -12.5e1px" = of_Z (-125)
  /\ parseFloat "." = NaN
  /\ parseFloat "1.1805916207174113e+21" = of_Z (2 ^ 70)
  /\ parseInt10 "12px" = of_Z 12
  /\ parseInt10 "0x1f" = of_Z 0
  /\ parseInt10 "" = NaN
  /\ indexOf ["a"; "b"; "a"]%string "a" = 0
  /\ indexOf ["a"; "b"]%string "c" = -1.
Proof. repeat split; vm_compute; reflexivity. Qed.

End JSFacts.

(** ** Facts about the service *)

Module MiningFacts.
Import JS Mining.

Local Open Scope string_scope.
Local Open Scope Z_scope.

(** *** The divisions on record *)

Lemma fst_bind {A B} (m : Traced A) (f : A -> Traced B) :
  fst (bind m f) = fst (f (fst m)).
Proof. unfold bind. destruct m as [x l1]. simpl. now destruct (f x). Qed.

Lemma snd_bind {A B} (m : Traced A) (f : A -> Traced B) :
  snd (bind m f) = (snd m ++ snd (f (fst m)))%list.
Proof. unfold bind. destruct m as [x l1]. simpl. now destruct (f x). Qed.

Lemma fst_mapT {A B} (f : A -> Traced B) (l : list A) :
  fst (mapT f l) = map (fun x => fst (f x)) l.
Proof.
  induction l as [| x l IH]; [reflexivity |].
  simpl mapT. rewrite !fst_bind. simpl. now rewrite IH.
Qed.

Lemma snd_mapT {A B} (P : number -> Prop) (f : A -> Traced B) (l : list A) :
  (forall x, In x l -> Forall P (snd (f x))) -> Forall P (snd (mapT f l)).
Proof.
  induction l as [| x l IH]; intros H; [constructor |].
  simpl mapT. rewrite !snd_bind. simpl. rewrite app_nil_r.
  apply Forall_app. split.
  - apply H. now left.
  - apply IH. intros y Hy. apply H. now right.
Qed.

(** *** Units *)

Lemma getMiningUnits_test (s : MiningService) :
  Spec.test_network (network s) ->
  getMiningUnits s = MiningUnits.mk (of_Z (10 ^ 12)) (Some "TH/s").
Proof.
  intros [H | H]; unfold getMiningUnits; rewrite H; reflexivity.
Qed.

Lemma getMiningUnits_main (s : MiningService) :
  ~ Spec.test_network (network s) ->
  getMiningUnits s = MiningUnits.mk (of_Z (10 ^ 18)) (Some "EH/s").
Proof.
  intros H. unfold getMiningUnits, Spec.test_network in *.
  destruct (String.eqb_spec (network s) "testnet") as [E | _]; [tauto |].
  destruct (String.eqb_spec (network s) "testnet4") as [E | _]; [tauto |].
  reflexivity.
Qed.

Lemma hashrateDivider_positive (s : MiningService) :
  gt0 (MiningUnits.hashrateDivider (getMiningUnits s)) = true.
Proof.
  unfold getMiningUnits.
  destruct (String.eqb (network s) "testnet" || String.eqb (network s) "testnet4");
    reflexivity.
Qed.

(** *** Positions in an array *)

Lemma indexOf_from_rank (l : list string) (x : string) (i : Z) :
  indexOf_from l x i
  = match list_find (fun y => y = x) l with
    | Some (j, _) => i + Z.of_nat j
    | None => -1
    end.
Proof.
  revert i. induction l as [| y l IH]; intros i; [reflexivity |].
  simpl indexOf_from. cbn [list_find].
  destruct (String.eqb_spec y x) as [E | E].
  - rewrite decide_True by exact E. simpl. lia.
  - rewrite decide_False by exact E. rewrite IH.
    destruct (list_find (fun y0 => y0 = x) l) as [[j z] |]; simpl; lia.
Qed.

(** [indexOf] computes the rank of the specification. *)
Lemma indexOf_rank (l : list string) (x : string) : indexOf l x = Spec.rank l x.
Proof.
  unfold indexOf, Spec.rank. rewrite indexOf_from_rank.
  destruct (list_find (fun y => y = x) l) as [[j z] |]; lia.
Qed.

Lemma rank_absent (l : list string) (x : string) : ~ In x l -> Spec.rank l x = -1.
Proof.
  intros H. unfold Spec.rank.
  destruct (list_find (fun y => y = x) l) as [[j z] |] eqn:E; [| reflexivity].
  apply list_find_Some in E as (Hj & -> & _).
  exfalso. apply H. apply list_elem_of_In. eapply list_elem_of_lookup_2. exact Hj.
Qed.

Lemma rank_present (l : list string) (x : string) : In x l -> 0 <= Spec.rank l x.
Proof.
  intros H. unfold Spec.rank.
  destruct (list_find (fun y => y = x) l) as [[j z] |] eqn:E; [lia |].
  exfalso. apply list_elem_of_In in H.
  eapply list_find_None in E. rewrite Forall_forall in E. now apply (E x).
Qed.

(** *** The total-count header *)

Lemma parseInt10_non_numeric (h : string) : Spec.non_numeric h -> parseInt10 h = NaN.
Proof.
  unfold Spec.non_numeric, parseInt10.
  destruct (read_sign (trim_start h)) as [neg s1]. simpl.
  destruct s1 as [| c s1]; [reflexivity |].
  intros H. simpl. now rewrite H.
Qed.

End MiningFacts.

(** ** The derivation, field by field *)

Module DerivationFacts.
Import JS Mining JSFacts MiningFacts.

Local Open Scope string_scope.
Local Open Scope Z_scope.

Section Pool.
Variable stats : PoolsStats.t.
Variables safeCount hashrateDivider : number.
Variable poolStat : SinglePoolStats.t.

Lemma derivePool_share :
  DerivedPool.share (fst (derivePool stats safeCount hashrateDivider poolStat))
  = if gt0 (num (PoolsStats.blockCount stats))
    then parseFloat (toFixed2 (mul (div (num (SinglePoolStats.blockCount poolStat))
                                        (num (PoolsStats.blockCount stats)))
                                   (of_Z 100)))
    else zero.
Proof.
  unfold derivePool. rewrite !fst_bind.
  destruct (gt0 (num (PoolsStats.blockCount stats))); reflexivity.
Qed.

Lemma derivePool_emptyBlockRatio :
  DerivedPool.emptyBlockRatio
    (fst (derivePool stats safeCount hashrateDivider poolStat))
  = if gt0 (num (SinglePoolStats.blockCount poolStat))
    then toFixed2 (mul (div (or0 (SinglePoolStats.emptyBlocks poolStat))
                            (num (SinglePoolStats.blockCount poolStat)))
                       (of_Z 100))
    else "0.00".
Proof.
  unfold derivePool. rewrite !fst_bind.
  destruct (gt0 (num (SinglePoolStats.blockCount poolStat))); reflexivity.
Qed.

Lemma derivePool_raw :
  DerivedPool.raw (fst (derivePool stats safeCount hashrateDivider poolStat))
  = poolStat.
Proof. unfold derivePool. now rewrite !fst_bind. Qed.

Lemma derivePool_divisors :
  gt0 safeCount = true -> gt0 hashrateDivider = true ->
  Forall (fun d => gt0 d = true)
         (snd (derivePool stats safeCount hashrateDivider poolStat)).
Proof.
  intros Hs Hd. unfold derivePool. rewrite !snd_bind.
  destruct (gt0 (num (PoolsStats.blockCount stats))) eqn:Hb;
    destruct (gt0 (num (SinglePoolStats.blockCount poolStat))) eqn:Hp;
    simpl; repeat constructor; assumption.
Qed.

End Pool.

Section Stats.
Variable s : MiningService.
Variable response : Response.t.

Lemma safeBlockCount_positive (stats : PoolsStats.t) :
  gt0 (safeBlockCount stats) = true.
Proof.
  unfold safeBlockCount.
  now destruct (gt0 (num (PoolsStats.blockCount stats))) eqn:E.
Qed.

Lemma generate_pools :
  MiningStats.pools (fst (generateMiningStats s response))
  = map (fun p => fst (derivePool (Response.body response)
                         (safeBlockCount (Response.body response))
                         (MiningUnits.hashrateDivider (getMiningUnits s)) p))
        (PoolsStats.pools (Response.body response)).
Proof.
  unfold generateMiningStats. cbv zeta.
  rewrite !fst_bind. simpl. now rewrite fst_mapT.
Qed.

Lemma generate_totalEmptyBlockRatio :
  gt0 (num (PoolsStats.blockCount (Response.body response))) = false ->
  MiningStats.totalEmptyBlockRatio (fst (generateMiningStats s response)) = "0.00".
Proof.
  intros H. unfold generateMiningStats. cbv zeta.
  rewrite !fst_bind. rewrite H. reflexivity.
Qed.

Lemma generate_totalBlockCount :
  MiningStats.totalBlockCount (fst (generateMiningStats s response))
  = parseInt10 (match Response.x_total_count response with
                | Some h => if bool_decide (h = "") then "0" else h
                | None => "0"
                end).
Proof. unfold generateMiningStats. cbv zeta. now rewrite !fst_bind. Qed.

Lemma generate_lastEstimatedHashrate :
  MiningStats.lastEstimatedHashrate (fst (generateMiningStats s response))
  = div (or0 (PoolsStats.lastEstimatedHashrate (Response.body response)))
        (MiningUnits.hashrateDivider (getMiningUnits s)).
Proof. unfold generateMiningStats. cbv zeta. now rewrite !fst_bind. Qed.

Lemma generate_divisors :
  Forall (fun d => gt0 d = true) (snd (generateMiningStats s response)).
Proof.
  pose proof (safeBlockCount_positive (Response.body response)) as Hsafe.
  pose proof (hashrateDivider_positive s) as Hdiv.
  unfold generateMiningStats. cbv zeta. rewrite !snd_bind.
  repeat (apply Forall_app; split).
  - destruct (gt0 (num (PoolsStats.blockCount (Response.body response)))) eqn:Hb.
    + simpl. repeat constructor. exact Hb.
    + constructor.
  - apply snd_mapT. intros p _. now apply derivePool_divisors.
  - simpl. repeat constructor. exact Hdiv.
  - simpl. repeat constructor. exact Hdiv.
  - simpl. repeat constructor; exact Hdiv.
  - constructor.
Qed.

End Stats.

End DerivationFacts.

(** ** The claims *)

Import JS Mining JSFacts MiningFacts DerivationFacts.

Local Open Scope string_scope.
Local Open Scope Z_scope.

(** *** Units and time windows *)

(** C9. [getMiningUnits] returns a value for every network token: on a test
    network ("testnet", "testnet4") the divider 10^12 with the unit "TH/s",
    on every other token, the main network included, the divider 10^18 with
    the unit "EH/s". *)
Theorem getMiningUnits_by_network (s : MiningService) :
  (Spec.test_network (network s) ->
   getMiningUnits s = MiningUnits.mk (of_Z (10 ^ 12)) (Some "TH/s"))
  /\ (~ Spec.test_network (network s) ->
      getMiningUnits s = MiningUnits.mk (of_Z (10 ^ 18)) (Some "EH/s")).
Proof.
  split; [apply getMiningUnits_test | apply getMiningUnits_main].
Qed.

Lemma getMiningUnits_by_network_witness :
  getMiningUnits (constructor "testnet4" None)
  = MiningUnits.mk (of_Z (10 ^ 12)) (Some "TH/s")
  /\ getMiningUnits (constructor "signet" None)
     = MiningUnits.mk (of_Z (10 ^ 18)) (Some "EH/s").
Proof.
  split.
  - apply (proj1 (getMiningUnits_by_network (constructor "testnet4" None))).
    right. reflexivity.
  - apply (proj2 (getMiningUnits_by_network (constructor "signet" None))).
    intros [H | H]; discriminate H.
Defined.

(** C8. With the stored preference (or "1w" when none is stored),
    [getDefaultTimespan min] is [min] when the preference ranks strictly
    before [min] in the list 24h, 3d, 1w, 1m, 3m, 6m, 1y, 2y, 3y, all, and
    the preference otherwise; so with "24h" stored the floor "1m" gives
    "1m", and with "1y" stored it gives "1y". *)
Theorem getDefaultTimespan_floor :
  timespans = ["24h"; "3d"; "1w"; "1m"; "3m"; "6m"; "1y"; "2y"; "3y"; "all"]
  /\ (forall s min,
        let preference := default "1w" (miningWindowPreference s) in
        getDefaultTimespan s min
        = if Spec.rank timespans preference <? Spec.rank timespans min
          then min else preference)
  /\ (forall s, miningWindowPreference s = Some "24h" ->
                getDefaultTimespan s "1m" = "1m")
  /\ (forall s, miningWindowPreference s = Some "1y" ->
                getDefaultTimespan s "1m" = "1y").
Proof.
  split; [reflexivity |]. split; [| split].
  - intros s min. cbv zeta. unfold getDefaultTimespan.
    now rewrite !indexOf_rank.
  - intros s H. unfold getDefaultTimespan. now rewrite H.
  - intros s H. unfold getDefaultTimespan. now rewrite H.
Qed.

Lemma getDefaultTimespan_floor_witness :
  getDefaultTimespan (constructor "" (Some "24h")) "1m" = "1m"
  /\ getDefaultTimespan (constructor "" (Some "1y")) "1m" = "1y".
Proof.
  destruct getDefaultTimespan_floor as (_ & _ & Hlow & Hhigh).
  split; [apply Hlow | apply Hhigh]; reflexivity.
Defined.

(** C10. When [min] is one of the ten timespan tokens and the stored
    preference is a string that is none of them, [getDefaultTimespan min]
    returns [min]: the unknown preference ranks below every token. *)
Theorem getDefaultTimespan_unknown_preference
    (s : MiningService) (min preference : string) :
  In min timespans ->
  miningWindowPreference s = Some preference ->
  ~ In preference timespans ->
  getDefaultTimespan s min = min.
Proof.
  intros Hmin Hpref Hnot. unfold getDefaultTimespan. rewrite Hpref. simpl default.
  rewrite !indexOf_rank. rewrite (rank_absent _ _ Hnot).
  pose proof (rank_present _ _ Hmin) as Hrank.
  replace (-1 <? Spec.rank timespans min) with true; [reflexivity |].
  symmetry. apply Z.ltb_lt. lia.
Qed.

Lemma getDefaultTimespan_unknown_preference_witness :
  getDefaultTimespan (constructor "" (Some "2w")) "3m" = "3m".
Proof.
  apply (getDefaultTimespan_unknown_preference
           (constructor "" (Some "2w")) "3m" "2w").
  - simpl. tauto.
  - reflexivity.
  - simpl. intros H. repeat (destruct H as [H | H]; [discriminate H |]). exact H.
Defined.

(** *** The derivation *)

(** C7, as the claim states it, fails: a total-count header that is not
    numeric, such as "abc", gives [NaN], not 0. *)
Lemma totalBlockCount_non_numeric_counterexample :
  Spec.non_numeric "abc"
  /\ MiningStats.totalBlockCount
       (fst (generateMiningStats Spec.main_service
               (Response.mk Spec.blank_payload (Some "abc"))))
     <> zero.
Proof. split; [reflexivity |]. vm_compute. discriminate. Qed.

(** C7, amended. [totalBlockCount] is 0 when the total-count header is
    absent or the empty string; otherwise it is [parseInt] of the header in
    base 10, which is [NaN] when the header is not numeric. *)
Theorem totalBlockCount_parse (s : MiningService) (response : Response.t) :
  let total := MiningStats.totalBlockCount (fst (generateMiningStats s response)) in
  match Response.x_total_count response with
  | None => total = zero
  | Some h =>
      (h = "" -> total = zero)
      /\ (h <> "" -> total = parseInt10 h)
      /\ (h <> "" -> Spec.non_numeric h -> total = NaN)
  end.
Proof.
  cbv zeta. rewrite generate_totalBlockCount.
  destruct (Response.x_total_count response) as [h |]; [| reflexivity].
  repeat split.
  - intros ->. reflexivity.
  - intros Hne. now rewrite bool_decide_eq_false_2.
  - intros Hne Hnon. rewrite bool_decide_eq_false_2 by exact Hne.
    now apply parseInt10_non_numeric.
Qed.

Lemma totalBlockCount_parse_witness :
  MiningStats.totalBlockCount
    (fst (generateMiningStats Spec.main_service
            (Response.mk Spec.blank_payload (Some "")))) = zero
  /\ MiningStats.totalBlockCount
       (fst (generateMiningStats Spec.main_service
               (Response.mk Spec.blank_payload (Some "25")))) = of_Z 25
  /\ MiningStats.totalBlockCount
       (fst (generateMiningStats Spec.main_service
               (Response.mk Spec.blank_payload (Some "n/a")))) = NaN.
Proof.
  split; [| split].
  - apply (totalBlockCount_parse Spec.main_service
             (Response.mk Spec.blank_payload (Some ""))). reflexivity.
  - apply (totalBlockCount_parse Spec.main_service
             (Response.mk Spec.blank_payload (Some "25"))). discriminate.
  - apply (totalBlockCount_parse Spec.main_service
             (Response.mk Spec.blank_payload (Some "n/a"))).
    + discriminate.
    + reflexivity.
Defined.

(** C5, as the claim states it, fails on its last figure: the example's
    top-level [lastEstimatedHashrate] is 5e20 / 1e18 = 500, not 0.5. *)
Lemma example_hashrate_counterexample :
  MiningStats.lastEstimatedHashrate
    (fst (generateMiningStats Spec.main_service
            (Response.mk Spec.example_payload None)))
  <> Fin (1 # 2).
Proof. vm_compute. discriminate. Qed.

(** C5, amended. On the main network the example payload yields pool A
    with share 60 and empty-block ratio "1.67", pool B with share 40 and
    ratio "0.00", the total ratio "1.00", and the top-level
    [lastEstimatedHashrate] 500. *)
Theorem example_end_to_end (s : MiningService) (header : option string) :
  ~ Spec.test_network (network s) ->
  let out := fst (generateMiningStats s (Response.mk Spec.example_payload header)) in
  map (fun d => (SinglePoolStats.id (DerivedPool.raw d), DerivedPool.share d,
                 DerivedPool.emptyBlockRatio d))
      (MiningStats.pools out)
  = [("A", of_Z 60, "1.67"); ("B", of_Z 40, "0.00")]
  /\ MiningStats.totalEmptyBlockRatio out = "1.00"
  /\ MiningStats.lastEstimatedHashrate out = of_Z 500.
Proof.
  intros Hmain. cbv zeta.
  rewrite generate_pools, generate_lastEstimatedHashrate.
  rewrite (getMiningUnits_main s Hmain).
  split; [vm_compute; reflexivity | split; vm_compute; reflexivity].
Qed.

Lemma example_end_to_end_witness :
  MiningStats.lastEstimatedHashrate
    (fst (generateMiningStats Spec.main_service
            (Response.mk Spec.example_payload None)))
  = of_Z 500.
Proof.
  apply (example_end_to_end Spec.main_service None).
  intros [H | H]; discriminate H.
Defined.


Lemma Forall2_map_same {A B} (R : A -> B -> Prop) (f : A -> B) (l : list A) :
  (forall x, R x (f x)) -> Forall2 R l (map f l).
Proof. intros H. induction l as [| x l IH]; simpl; constructor; auto. Qed.

(** C2. No division of the derivation has a zero divisor: every divisor is
    positive.  And for a payload whose [blockCount] is 0 the total
    empty-block ratio is "0.00", and every pool of the payload, in the
    payload's order, has its derived pool, with the share 0 and, when the
    pool's own [blockCount] is 0, the empty-block ratio "0.00". *)
Theorem zero_blockCount_guarded (s : MiningService) (response : Response.t) :
  Forall (fun divisor => gt0 divisor = true) (snd (generateMiningStats s response))
  /\ (PoolsStats.blockCount (Response.body response) = Some zero ->
      let out := fst (generateMiningStats s response) in
      MiningStats.totalEmptyBlockRatio out = "0.00"
      /\ Forall2 Spec.idle_pool
           (PoolsStats.pools (Response.body response)) (MiningStats.pools out)).
Proof.
  split; [apply generate_divisors |].
  intros Hzero. cbv zeta. split.
  - apply generate_totalEmptyBlockRatio. now rewrite Hzero.
  - rewrite generate_pools. apply Forall2_map_same. intros p.
    unfold Spec.idle_pool. split; [apply derivePool_raw | split].
    + rewrite derivePool_share. now rewrite Hzero.
    + intros Hp. rewrite derivePool_emptyBlockRatio. now rewrite Hp.
Qed.

Lemma zero_blockCount_guarded_witness :
  let out :=
    fst (generateMiningStats Spec.main_service
           (Response.mk Spec.idle_payload None)) in
  MiningStats.totalEmptyBlockRatio out = "0.00"
  /\ Forall2 Spec.idle_pool (PoolsStats.pools Spec.idle_payload)
       (MiningStats.pools out).
Proof.
  apply (zero_blockCount_guarded Spec.main_service
           (Response.mk Spec.idle_payload None)).
  reflexivity.
Defined.

(** C6, as the claim states it, fails: nothing in the derivation bounds a
    pool's counters by the totals, and the payload with 1 block in total and
    a pool of 5 blocks, 10 of them empty, derives the share 500 and the
    ratio "200.00". *)
Lemma share_out_of_range_counterexample :
  map (fun d => (DerivedPool.share d, DerivedPool.emptyBlockRatio d,
                 Spec.in_0_100 (DerivedPool.share d),
                 Spec.in_0_100 (parseFloat (DerivedPool.emptyBlockRatio d))))
      (MiningStats.pools
         (fst (generateMiningStats Spec.main_service
                 (Response.mk Spec.skewed_payload None))))
  = [(of_Z 500, "200.00", false, false)].
Proof. vm_compute. reflexivity. Qed.

(** C6, amended. For every payload whose counters fit together (a finite
    total, and for each pool 0 <= emptyBlocks <= blockCount <= total), every
    derived pool has its share in [0,100] and its empty-block ratio, read as
    a number, in [0,100]. *)
Theorem share_and_ratio_in_range
    (s : MiningService) (response : Response.t) (d : DerivedPool.t) :
  Spec.consistent (Response.body response) ->
  In d (MiningStats.pools (fst (generateMiningStats s response))) ->
  Spec.in_0_100 (DerivedPool.share d) = true
  /\ Spec.in_0_100 (parseFloat (DerivedPool.emptyBlockRatio d)) = true.
Proof.
  intros (total & Htotal & Hpools) Hd.
  rewrite generate_pools in Hd. apply in_map_iff in Hd.
  destruct Hd as (p & <- & Hp).
  destruct (Hpools p Hp) as (blocks & empties & Hb & He & H0 & H1 & H2).
  rewrite derivePool_share, derivePool_emptyBlockRatio.
  rewrite Htotal, Hb, He. simpl num. split.
  - destruct (gt0 (Fin total)) eqn:Hgt; [| reflexivity].
    apply percentage_in_range.
    + now apply Qle_trans with empties.
    + exact H2.
    + unfold gt0 in Hgt. apply Z.ltb_lt in Hgt. unfold Qlt. simpl. lia.
  - destruct (gt0 (Fin blocks)) eqn:Hgt; [| reflexivity].
    apply percentage_in_range.
    + exact H0.
    + exact H1.
    + unfold gt0 in Hgt. apply Z.ltb_lt in Hgt. unfold Qlt. simpl. lia.
Qed.

Lemma share_and_ratio_in_range_witness :
  Forall (fun d => Spec.in_0_100 (DerivedPool.share d) = true
                   /\ Spec.in_0_100 (parseFloat (DerivedPool.emptyBlockRatio d)) = true)
         (MiningStats.pools
            (fst (generateMiningStats Spec.main_service
                    (Response.mk Spec.example_payload None)))).
Proof.
  apply Forall_forall. intros d Hd.
  apply (share_and_ratio_in_range Spec.main_service
           (Response.mk Spec.example_payload None) d).
  - exists (inject_Z 100). split; [reflexivity |].
    intros p [<- | [<- | []]].
    + exists (inject_Z 60), (inject_Z 1). repeat split; discriminate.
    + exists (inject_Z 40), (inject_Z 0). repeat split; discriminate.
  - now apply list_elem_of_In.
Defined.

(** *** The cache *)

(** The sibling accessor [getPools] keeps nothing of a failed request. *)
Lemma getPools_failure_not_cached (s : MiningService) :
  poolsData s = [] -> getPools s Failed = ([], s, true).
Proof. intros H. unfold getPools. now rewrite H. Qed.

(** C1, on the code.  When the request fails, [getMiningStats] emits the
    zeroed statistics with the units of the current network, but it also
    stores that object in the cache under the key, so that a call for the
    same key within the next five minutes makes no request and emits the
    same placeholder. *)
Theorem failed_request_is_cached
    (s : MiningService) (interval : string) (now now' : Z) :
  (forall e, cache s !! interval = Some e -> lastUpdated e <= now - 5 * 60000) ->
  let '(stats, s', requested) := getMiningStats s interval now Failed now' in
  requested = true
  /\ val stats = MiningStats.mk zero zero zero zero zero "0.00" []
                   (getMiningUnits s) zero
  /\ cache s' !! interval = Some (mkEntry now' stats)
  /\ forall now2 reply2 now2',
       now2 - now' < 5 * 60000 ->
       getMiningStats s' interval now2 reply2 now2' = (stats, s', false).
Proof.
  intros Hmiss.
  assert (getMiningStats s interval now Failed now'
          = (requestStats s interval Failed now', true)) as ->.
  { unfold getMiningStats. destruct (cache s !! interval) as [e |] eqn:He;
      [| reflexivity].
    specialize (Hmiss e eq_refl).
    now replace (now - 5 * 60000 <? lastUpdated e) with false
      by (symmetry; apply Z.ltb_ge; lia). }
  unfold requestStats. repeat split.
  - simpl. apply lookup_insert_eq.
  - intros now2 reply2 now2' Hsoon. unfold getMiningStats. simpl cache.
    rewrite lookup_insert_eq. simpl lastUpdated. simpl data.
    now replace (now2 - 5 * 60000 <? now') with true
      by (symmetry; apply Z.ltb_lt; lia).
Qed.

Lemma failed_request_is_cached_witness :
  let '(stats, s', requested) :=
    getMiningStats Spec.main_service "24h" 1000 Failed 1200 in
  cache s' !! "24h" = Some (mkEntry 1200 stats)
  /\ getMiningStats s' "24h" 2000 Failed 2200 = (stats, s', false).
Proof.
  pose proof (failed_request_is_cached Spec.main_service "24h" 1000 1200) as H.
  simpl in H. destruct H as (_ & _ & Hcache & Hnext).
  - intros e He. discriminate He.
  - split; [exact Hcache |]. apply Hnext. lia.
Defined.

(** [getMiningStats] is its test followed, on a miss, by the pipeline. *)
Lemma getMiningStats_phases (s : MiningService) (interval : string) (now : Z)
    (reply : Reply Response.t) (now' : Z) :
  getMiningStats s interval now reply now'
  = match lookupFresh s interval now with
    | Some stats => (stats, s, false)
    | None => (requestStats s interval reply now', true)
    end.
Proof.
  unfold getMiningStats, lookupFresh.
  destruct (cache s !! interval) as [e |]; [| reflexivity].
  now destruct (now - 5 * 60000 <? lastUpdated e).
Qed.

(** C3, as the claim states it, fails: two calls for one key ten
    milliseconds apart, the second made before the reply to the first has
    arrived, both find no entry and both make a request, and the second
    emits an object of its own, not the one the first stored. *)
Lemma overlapping_calls_counterexample :
  let reply := Ok (Response.mk Spec.example_payload None) in
  let calls := Run.overlappingCalls Spec.main_service "1w" 0 10 reply 500 reply 600 in
  10 - 0 < 5 * 60000
  /\ snd (fst calls) = true
  /\ snd (snd calls) = true
  /\ fst (snd calls) <> fst (fst calls).
Proof.
  cbv zeta. split; [lia |].
  split; [vm_compute; reflexivity |]. split; [vm_compute; reflexivity |].
  vm_compute. intros H. injection H as H. discriminate H.
Qed.

(** C3, amended. [getMiningStats] emits the cached object without a request
    exactly when the key has an entry and [now - lastUpdated] is less than
    five minutes; hence of two calls for one key less than five minutes
    apart, the second made once the first has emitted (its reply, if any,
    has arrived) and with no network change in between, at most one makes a
    request, and when the first made one the second emits the very object
    the first stored. *)
Theorem fresh_entry_is_reused (s : MiningService) (interval : string) :
  (forall now reply now',
     let '(stats, s', requested) := getMiningStats s interval now reply now' in
     (requested = false <->
      exists e, cache s !! interval = Some e /\ now - lastUpdated e < 5 * 60000)
     /\ (requested = false ->
         s' = s /\ exists e, cache s !! interval = Some e /\ stats = data e))
  /\ (forall t1 reply1 t1' t2 reply2 t2',
        t1 <= t1' -> t1' <= t2 -> t2 - t1 < 5 * 60000 ->
        let '(stats1, s1, requested1) := getMiningStats s interval t1 reply1 t1' in
        let '(stats2, s2, requested2) := getMiningStats s1 interval t2 reply2 t2' in
        (requested1 = true -> requested2 = false /\ stats2 = stats1)
        /\ (Nat.b2n requested1 + Nat.b2n requested2 <= 1)%nat).
Proof.
  split.
  - intros now reply now'. unfold getMiningStats.
    destruct (cache s !! interval) as [e |] eqn:He.
    + destruct (now - 5 * 60000 <? lastUpdated e) eqn:Hfresh.
      * apply Z.ltb_lt in Hfresh. repeat split; eauto.
        exists e. split; [reflexivity | lia].
      * apply Z.ltb_ge in Hfresh.
        destruct (requestStats s interval reply now') as [stats s'].
        split; [split |]; try discriminate.
        intros (e' & [= <-] & Hlt). lia.
    + destruct (requestStats s interval reply now') as [stats s'].
      split; [split |]; try discriminate.
      intros (e' & [=] & _).
  - intros t1 reply1 t1' t2 reply2 t2' Harrive Hafter Hsoon.
    unfold getMiningStats at 1.
    assert (Hsecond :
      getMiningStats (snd (requestStats s interval reply1 t1')) interval t2 reply2 t2'
      = (fst (requestStats s interval reply1 t1'),
         snd (requestStats s interval reply1 t1'), false)).
    { unfold requestStats, getMiningStats. simpl.
      rewrite lookup_insert_eq. simpl.
      now replace (t2 - 5 * 60000 <? t1') with true
        by (symmetry; apply Z.ltb_lt; lia). }
    destruct (requestStats s interval reply1 t1') as [stats1 s1] eqn:Hreq.
    simpl in Hsecond.
    destruct (cache s !! interval) as [e |] eqn:He.
    + destruct (t1 - 5 * 60000 <? lastUpdated e).
      * destruct (getMiningStats s interval t2 reply2 t2') as [[stats2 s2] [|]];
          split; try discriminate; simpl; lia.
      * rewrite Hsecond. split; [now split | simpl; lia].
    + rewrite Hsecond. split; [now split | simpl; lia].
Qed.

Lemma fresh_entry_is_reused_witness :
  let '(stats1, s1, requested1) :=
    getMiningStats Spec.main_service "1w" 1000
      (Ok (Response.mk Spec.example_payload (Some "2"))) 1500 in
  let '(stats2, s2, requested2) := getMiningStats s1 "1w" 200000 Failed 200500 in
  (requested1 = true -> requested2 = false /\ stats2 = stats1)
  /\ (Nat.b2n requested1 + Nat.b2n requested2 <= 1)%nat.
Proof.
  apply (proj2 (fresh_entry_is_reused Spec.main_service "1w")
           1000 (Ok (Response.mk Spec.example_payload (Some "2"))) 1500
           200000 Failed 200500); lia.
Defined.

(** C4. When the network-change notifier fires, the service is left with an
    empty statistics cache and an empty pool list, so that the next
    [getMiningStats] for any key, cached before the event or not, finds no
    entry and makes a request. *)
Theorem network_change_clears_cache (s : MiningService) (net : string) :
  let s' := networkChanged net s in
  cache s' = ∅
  /\ poolsData s' = []
  /\ forall interval now reply now',
       cache s' !! interval = None
       /\ getMiningStats s' interval now reply now'
          = (requestStats s' interval reply now', true).
Proof.
  cbv zeta. split; [reflexivity | split; [reflexivity |]].
  intros interval now reply now'.
  assert (Hnone : cache (networkChanged net s) !! interval = None)
    by apply lookup_empty.
  split; [exact Hnone |].
  unfold getMiningStats. now rewrite Hnone.
Qed.

(** ** Further properties of the service *)

Section CacheProperties.
Import Run.

(** *** The statistics cache *)

(** X1. Whatever [getMiningStats] emits, on a hit as on a miss, is the
    object the cache holds under the key afterwards; and after a request
    the entry bears the time of the reply. *)
Theorem getMiningStats_emits_what_is_cached
    (s : MiningService) (interval : string) (now : Z)
    (reply : Reply Response.t) (now' : Z) :
  let result := getMiningStats s interval now reply now' in
  exists e, cache (snd (fst result)) !! interval = Some e
            /\ data e = fst (fst result)
            /\ (snd result = true -> lastUpdated e = now').
Proof.
  cbv zeta. unfold getMiningStats.
  destruct (cache s !! interval) as [e |] eqn:He.
  - destruct (now - 5 * 60000 <? lastUpdated e); simpl.
    + exists e. split; [exact He | split; [reflexivity | discriminate]].
    + eexists. split; [apply lookup_insert_eq |]. split; reflexivity.
  - simpl. eexists. split; [apply lookup_insert_eq |]. split; reflexivity.
Qed.

Lemma getMiningStats_emits_what_is_cached_witness :
  exists e,
    cache (snd (fst (getMiningStats Spec.main_service "1w" 0 Failed 5))) !! "1w"
    = Some e
    /\ lastUpdated e = 5.
Proof.
  destruct (getMiningStats_emits_what_is_cached Spec.main_service "1w" 0 Failed 5)
    as (e & He & _ & Ht).
  exists e. split; [exact He |]. apply Ht. vm_compute. reflexivity.
Defined.

(** X2. [getMiningStats] touches nothing but the entry of its key: the
    entries of the other keys, the pool list, the network and the stored
    preference are as before, and no object is forgotten. *)
Theorem getMiningStats_frame
    (s : MiningService) (interval : string) (now : Z)
    (reply : Reply Response.t) (now' : Z) :
  let s' := snd (fst (getMiningStats s interval now reply now')) in
  (forall key, key <> interval -> cache s' !! key = cache s !! key)
  /\ poolsData s' = poolsData s
  /\ network s' = network s
  /\ miningWindowPreference s' = miningWindowPreference s
  /\ (allocated s <= allocated s')%nat.
Proof.
  cbv zeta. unfold getMiningStats.
  assert (Hreq : forall key, key <> interval ->
            cache (snd (requestStats s interval reply now')) !! key
            = cache s !! key).
  { intros key Hkey. unfold requestStats. simpl. now apply lookup_insert_ne. }
  destruct (cache s !! interval) as [e |] eqn:He;
    [destruct (now - 5 * 60000 <? lastUpdated e) |]; simpl;
    (split; [auto | split; [reflexivity | split; [reflexivity |
       split; [reflexivity | lia]]]]).
Qed.

Lemma getMiningStats_frame_witness :
  cache (snd (fst (getMiningStats Spec.main_service "1w" 0 Failed 5))) !! "24h"
  = cache Spec.main_service !! "24h".
Proof.
  apply (getMiningStats_frame Spec.main_service "1w" 0 Failed 5).
  discriminate.
Defined.

(** *** The pool list *)

(** X3. Once [getPools] has received a non-empty list it keeps it: the call
    emits the list, and every later call emits the same list without a
    request, whatever the backend would answer. *)
Theorem getPools_remembers
    (s : MiningService) (body : list SinglePoolStats.t) :
  poolsData s = [] -> body <> [] ->
  let '(emitted, s', requested) := getPools s (Ok body) in
  emitted = body /\ requested = true
  /\ forall reply, getPools s' reply = (body, s', false).
Proof.
  intros Hempty Hbody. unfold getPools at 1. rewrite Hempty.
  repeat split. intros reply. unfold getPools. simpl poolsData.
  destruct body as [| p body]; [contradiction | reflexivity].
Qed.

Lemma getPools_remembers_witness :
  let '(emitted, s', requested) :=
    getPools Spec.main_service (Ok [counted (Some 3) None]) in
  getPools s' Failed = ([counted (Some 3) None], s', false).
Proof.
  pose proof (getPools_remembers Spec.main_service [counted (Some 3) None]
                eq_refl ltac:(discriminate)) as H.
  simpl in H. apply H.
Defined.

(** X4. A failed request and an empty list are both emitted as the empty
    list and neither is kept: the pool list stays empty and the next call
    asks the backend again. *)
Theorem getPools_keeps_no_empty_answer
    (s : MiningService) (reply : Reply (list SinglePoolStats.t)) :
  poolsData s = [] -> reply = Failed \/ reply = Ok [] ->
  let '(emitted, s', requested) := getPools s reply in
  emitted = [] /\ requested = true /\ poolsData s' = []
  /\ cache s' = cache s
  /\ forall reply', snd (getPools s' reply') = true.
Proof.
  intros Hempty [-> | ->]; unfold getPools at 1; rewrite Hempty;
    repeat split; try assumption;
    intros reply'; unfold getPools; simpl poolsData; try rewrite Hempty;
    now destruct reply'.
Qed.

Lemma getPools_keeps_no_empty_answer_witness :
  let '(emitted, s', requested) := getPools Spec.main_service (Ok []) in
  emitted = [] /\ requested = true /\ poolsData s' = []
  /\ cache s' = cache Spec.main_service
  /\ forall reply', snd (getPools s' reply') = true.
Proof.
  apply (getPools_keeps_no_empty_answer Spec.main_service (Ok [])).
  - reflexivity.
  - right. reflexivity.
Defined.

(** [getPools] never touches the statistics cache, nor the network, the
    preference or the objects allocated: only the pool list can change. *)
Lemma getPools_frame
    (s : MiningService) (reply : Reply (list SinglePoolStats.t)) :
  let s' := snd (fst (getPools s reply)) in
  cache s' = cache s /\ network s' = network s
  /\ miningWindowPreference s' = miningWindowPreference s
  /\ allocated s' = allocated s.
Proof.
  cbv zeta. unfold getPools.
  destruct (poolsData s); [destruct reply |]; repeat split; reflexivity.
Qed.

(** X5. A network change makes [getPools] ask again: a service that holds a
    pool list answers from it without a request, and once the notifier has
    fired the same call goes to the backend and emits what the backend
    replies (nothing on a failure). *)
Theorem network_change_refetches_pools
    (s : MiningService) (net : string)
    (reply : Reply (list SinglePoolStats.t)) :
  poolsData s <> [] ->
  getPools s reply = (poolsData s, s, false)
  /\ snd (getPools (networkChanged net s) reply) = true
  /\ fst (fst (getPools (networkChanged net s) reply))
     = match reply with Ok body => body | Failed => [] end.
Proof.
  intros Hheld. split; [| split].
  - unfold getPools. destruct (poolsData s); [contradiction | reflexivity].
  - unfold getPools. simpl poolsData. now destruct reply.
  - unfold getPools. simpl poolsData. now destruct reply.
Qed.

Lemma network_change_refetches_pools_witness :
  let s := snd (fst (getPools Spec.main_service (Ok [counted (Some 3) None]))) in
  snd (getPools s Failed) = false
  /\ snd (getPools (networkChanged "testnet" s) Failed) = true.
Proof.
  intros s.
  destruct (network_change_refetches_pools s "testnet" Failed) as (H1 & H2 & _).
  - discriminate.
  - split; [now rewrite H1 | exact H2].
Defined.

End CacheProperties.

(** *** Runs *)

Section Runs.
Import Run.

Lemma generate_miningUnits (s : MiningService) (response : Response.t) :
  MiningStats.miningUnits (fst (generateMiningStats s response)) = getMiningUnits s.
Proof. unfold generateMiningStats. cbv zeta. now rewrite !fst_bind. Qed.

Lemma requestStats_units (s : MiningService) (interval : string)
    (reply : Reply Response.t) (now' : Z) :
  MiningStats.miningUnits (val (fst (requestStats s interval reply now')))
  = getMiningUnits s.
Proof.
  unfold requestStats. simpl. destruct reply; [apply generate_miningUnits |].
  reflexivity.
Qed.

Lemma requestStats_units_current (s : MiningService) (interval : string)
    (reply : Reply Response.t) (now' : Z) :
  units_current s -> units_current (snd (requestStats s interval reply now')).
Proof.
  intros Hinv key e Hkey. simpl in Hkey.
  destruct (decide (interval = key)) as [<- | Hne].
  - rewrite lookup_insert_eq in Hkey. injection Hkey as <-.
    apply (requestStats_units s interval reply now').
  - rewrite lookup_insert_ne in Hkey by exact Hne. apply (Hinv key e Hkey).
Qed.

Lemma requestStats_ids_allocated (s : MiningService) (interval : string)
    (reply : Reply Response.t) (now' : Z) :
  ids_allocated s -> ids_allocated (snd (requestStats s interval reply now')).
Proof.
  intros Hinv key e Hkey. simpl in Hkey |- *.
  destruct (decide (interval = key)) as [<- | Hne].
  - rewrite lookup_insert_eq in Hkey. injection Hkey as <-. simpl. lia.
  - rewrite lookup_insert_ne in Hkey by exact Hne.
    specialize (Hinv key e Hkey). lia.
Qed.

Lemma step_units_current (s : MiningService) (ev : Event) :
  units_current s -> units_current (step s ev).
Proof.
  intros Hinv.
  destruct ev as [interval now reply now' | interval reply now' | reply | net];
    simpl.
  - unfold getMiningStats.
    destruct (cache s !! interval) as [e |] eqn:He;
      [destruct (now - 5 * 60000 <? lastUpdated e); [exact Hinv |] |];
      now apply requestStats_units_current.
  - now apply requestStats_units_current.
  - unfold getPools. destruct (poolsData s); [destruct reply |]; exact Hinv.
  - intros key e Hkey. simpl in Hkey. now rewrite lookup_empty in Hkey.
Qed.

Lemma step_ids_allocated (s : MiningService) (ev : Event) :
  ids_allocated s -> ids_allocated (step s ev).
Proof.
  intros Hinv.
  destruct ev as [interval now reply now' | interval reply now' | reply | net];
    simpl.
  - unfold getMiningStats.
    destruct (cache s !! interval) as [e |] eqn:He;
      [destruct (now - 5 * 60000 <? lastUpdated e); [exact Hinv |] |];
      now apply requestStats_ids_allocated.
  - now apply requestStats_ids_allocated.
  - unfold getPools. destruct (poolsData s); [destruct reply |]; exact Hinv.
  - intros key e Hkey. simpl in Hkey. now rewrite lookup_empty in Hkey.
Qed.

Lemma run_preserves (P : MiningService -> Prop) :
  (forall s ev, P s -> P (step s ev)) ->
  forall events s, P s -> P (run s events).
Proof.
  intros Hstep events. unfold run.
  induction events as [| ev events IH]; intros s Hs; [exact Hs |].
  simpl. apply IH. now apply Hstep.
Qed.

Lemma constructor_invariants (net : string) (preference : option string) :
  units_current (constructor net preference)
  /\ ids_allocated (constructor net preference).
Proof.
  split; intros key e Hkey; simpl in Hkey; now rewrite lookup_empty in Hkey.
Qed.

(** X6. However the service has been used since its construction, the
    statistics [getMiningStats] emits carry the units of the network the
    service is on at that moment, on a cache hit as on a miss: statistics
    cached under one network are never served under another. *)
Theorem emitted_units_are_current
    (net : string) (preference : option string) (events : list Event)
    (interval : string) (now : Z) (reply : Reply Response.t) (now' : Z) :
  let s := run (constructor net preference) events in
  MiningStats.miningUnits
    (val (fst (fst (getMiningStats s interval now reply now'))))
  = getMiningUnits s.
Proof.
  cbv zeta.
  assert (Hinv : units_current (run (constructor net preference) events)).
  { apply run_preserves; [apply step_units_current |].
    apply constructor_invariants. }
  set (s := run (constructor net preference) events) in *.
  unfold getMiningStats.
  destruct (cache s !! interval) as [e |] eqn:He;
    [destruct (now - 5 * 60000 <? lastUpdated e) |]; simpl fst.
  - apply (Hinv interval e He).
  - apply (requestStats_units s interval reply now').
  - apply (requestStats_units s interval reply now').
Qed.

(** X7. However the service has been used since its construction, the
    object a request of [getMiningStats] emits is a new one: it is
    identical to none of the objects the cache held before the call. *)
Theorem requested_object_is_new
    (net : string) (preference : option string) (events : list Event)
    (interval : string) (now : Z) (reply : Reply Response.t) (now' : Z) :
  let s := run (constructor net preference) events in
  let result := getMiningStats s interval now reply now' in
  snd result = true ->
  forall key e, cache s !! key = Some e -> data e <> fst (fst result).
Proof.
  cbv zeta.
  assert (Hinv : ids_allocated (run (constructor net preference) events)).
  { apply run_preserves; [apply step_ids_allocated |].
    apply constructor_invariants. }
  set (s := run (constructor net preference) events) in *.
  assert (Hreq : forall key e, cache s !! key = Some e ->
            data e <> fst (requestStats s interval reply now')).
  { intros key e Hkey Heq. specialize (Hinv key e Hkey).
    rewrite Heq in Hinv. unfold requestStats in Hinv. simpl in Hinv. lia. }
  unfold getMiningStats.
  destruct (cache s !! interval) as [e |] eqn:He;
    [destruct (now - 5 * 60000 <? lastUpdated e) |]; simpl.
  - discriminate.
  - intros _. exact Hreq.
  - intros _. exact Hreq.
Qed.

Lemma requested_object_is_new_witness :
  let s := run (constructor "" None) [GetMiningStats "1w" 0 Failed 5] in
  exists e, cache s !! "1w" = Some e
            /\ data e <> fst (fst (getMiningStats s "24h" 10 Failed 15)).
Proof.
  eexists. split; [vm_compute; reflexivity |].
  apply (requested_object_is_new "" None [GetMiningStats "1w" 0 Failed 5]
           "24h" 10 Failed 15) with (key := "1w").
  - vm_compute. reflexivity.
  - vm_compute. reflexivity.
Defined.

Lemma requestStats_origin (s : MiningService) (interval : string)
    (reply : Reply Response.t) (now' : Z) (key : string) (e : CacheEntry) :
  cache (snd (requestStats s interval reply now')) !! key = Some e ->
  cache s !! key = Some e \/ (key = interval /\ lastUpdated e = now').
Proof.
  intros Hkey. simpl in Hkey.
  destruct (decide (interval = key)) as [<- | Hne].
  - rewrite lookup_insert_eq in Hkey. injection Hkey as <-. now right.
  - rewrite lookup_insert_ne in Hkey by exact Hne. now left.
Qed.

Lemma run_cache_origin (events : list Event) :
  forall s key e,
    cache (run s events) !! key = Some e ->
    cache s !! key = Some e \/ In (key, lastUpdated e) (writes s events).
Proof.
  unfold run. induction events as [| ev events IH]; intros s key e Hkey;
    [now left |].
  simpl in Hkey. cbn [writes].
  destruct (IH _ _ _ Hkey) as [Hstep | Hlater];
    [| right; apply in_or_app; now right].
  destruct ev as [interval now reply now' | interval reply now' | reply | net];
    simpl in Hstep.
  - rewrite getMiningStats_phases in Hstep |- *.
    destruct (lookupFresh s interval now) as [stats |]; simpl in Hstep |- *;
      [now left |].
    apply requestStats_origin in Hstep as [Hold | [-> <-]]; [now left |].
    right. now left.
  - apply requestStats_origin in Hstep as [Hold | [-> <-]]; [now left |].
    right. now left.
  - left. unfold getPools in Hstep.
    destruct (poolsData s); [destruct reply |]; exact Hstep.
  - simpl in Hstep. now rewrite lookup_empty in Hstep.
Qed.

(** X8. The cache holds nothing the service was not asked for: every entry
    of a service used since its construction is under a key for which
    [getMiningStats] made a request, and bears the arrival time of the
    reply to one of those requests; a call answered from the cache leaves
    no entry. *)
Theorem cache_holds_only_requested_keys
    (net : string) (preference : option string) (events : list Event)
    (key : string) (e : CacheEntry) :
  cache (run (constructor net preference) events) !! key = Some e ->
  In (key, lastUpdated e) (writes (constructor net preference) events).
Proof.
  intros Hkey. destruct (run_cache_origin events _ _ _ Hkey) as [Hinit | H];
    [| exact H].
  simpl in Hinit. now rewrite lookup_empty in Hinit.
Qed.

Lemma cache_holds_only_requested_keys_witness :
  writes (constructor "" None)
    [GetMiningStats "1w" 0 Failed 5; GetMiningStats "1w" 10 Failed 777]
  = [("1w", 5)]
  /\ In ("1w", 5)
        (writes (constructor "" None)
           [GetMiningStats "1w" 0 Failed 5; GetMiningStats "1w" 10 Failed 777]).
Proof.
  split; [vm_compute; reflexivity |].
  apply (cache_holds_only_requested_keys "" None
           [GetMiningStats "1w" 0 Failed 5; GetMiningStats "1w" 10 Failed 777]
           "1w" (mkEntry 5 (mkObj 0%nat (empty (constructor "" None))))).
  vm_compute. reflexivity.
Defined.

Lemma run_pools_origin (events : list Event) :
  forall s,
    poolsData (run s events) = poolsData s
    \/ poolsData (run s events) = []
    \/ In (poolsData (run s events)) (received s events).
Proof.
  unfold run. induction events as [| ev events IH]; intros s; [now left |].
  simpl fold_left. cbn [received].
  destruct (IH (step s ev)) as [Hsame | [Hnil | Hin]];
    [| right; now left | right; right; apply in_or_app; now right].
  rewrite Hsame.
  destruct ev as [interval now reply now' | interval reply now' | reply | net];
    simpl.
  - left. apply (getMiningStats_frame s interval now reply now').
  - now left.
  - unfold getPools. destruct (poolsData s) eqn:Hs; [| now left].
    destruct reply as [body |]; simpl; [| now left].
    right. right. now left.
  - right. now left.
Qed.

(** X9. The pool list holds nothing the backend did not send: in a service
    used since its construction it is either empty or the body of a
    successful reply to a [getPools] call that made a request. *)
Theorem poolsData_holds_only_received_lists
    (net : string) (preference : option string) (events : list Event) :
  let s := run (constructor net preference) events in
  poolsData s = [] \/ In (poolsData s) (received (constructor net preference) events).
Proof.
  cbv zeta.
  destruct (run_pools_origin events (constructor net preference))
    as [Hsame | [Hnil | Hin]]; [left; exact Hsame | now left | now right].
Qed.

(** X10. Requests for one key are not merged: when two replies for the key
    run through the pipeline one after the other, each creates its own
    object, the cache ends with the object and the arrival time of the
    second, and the entries of the other keys stay as they were. *)
Theorem overlapping_requests_last_reply_wins
    (s : MiningService) (interval : string)
    (reply1 reply2 : Reply Response.t) (t1 t2 : Z) :
  let first := requestStats s interval reply1 t1 in
  let second := requestStats (snd first) interval reply2 t2 in
  cache (snd second) !! interval = Some (mkEntry t2 (fst second))
  /\ fst first <> fst second
  /\ forall key, key <> interval -> cache (snd second) !! key = cache s !! key.
Proof.
  cbv zeta. split; [| split].
  - simpl. apply lookup_insert_eq.
  - unfold requestStats. simpl. intros H. injection H as H _. lia.
  - intros key Hkey. simpl. now rewrite !lookup_insert_ne.
Qed.

Lemma overlapping_requests_last_reply_wins_witness :
  cache (snd (requestStats (snd (requestStats Spec.main_service "1w" Failed 5))
                "1w" Failed 9)) !! "24h"
  = cache Spec.main_service !! "24h".
Proof.
  apply (overlapping_requests_last_reply_wins Spec.main_service "1w"
           Failed Failed 5 9).
  discriminate.
Defined.

End Runs.

(** *** Binary64 is exact on the integers below 2^53 *)

Section Exact.

Lemma rne_exact (q d : Z) : 0 < d -> rne (q * d) d = q.
Proof.
  intros Hd. unfold rne. rewrite Z.div_mul by lia. rewrite Z.mod_mul by lia.
  assert ((2 * 0 ?= d) = Lt) as -> by (apply Z.compare_lt_iff; lia).
  reflexivity.
Qed.

Lemma ilog2_multiple (w d : Z) : 0 < w -> 0 < d -> ilog2 (w * d) d = Z.log2 w.
Proof.
  intros Hw Hd. unfold ilog2.
  pose proof (Z.log2_mul_below w d Hw Hd) as Hlo.
  pose proof (Z.log2_mul_above w d ltac:(lia) ltac:(lia)) as Hhi.
  pose proof (Z.log2_nonneg w) as Hw0.
  set (k := Z.log2 (w * d) - Z.log2 d) in *.
  replace (0 <=? k) with true by (symmetry; apply Z.leb_le; lia).
  destruct (d * 2 ^ k <=? w * d) eqn:Hc.
  - apply Z.leb_le in Hc. assert (2 ^ k <= w) by nia.
    apply Z.log2_le_pow2 in H; lia.
  - apply Z.leb_gt in Hc. assert (w < 2 ^ k) by nia.
    apply Z.log2_lt_pow2 in H; lia.
Qed.

Lemma Qred_inject_Z (z : Z) : Qred (inject_Z z) = inject_Z z.
Proof.
  unfold Qred, inject_Z.
  pose proof (Z.ggcd_gcd z 1) as Hg.
  pose proof (Z.ggcd_correct_divisors z 1) as Hd.
  destruct (Z.ggcd z 1) as [g [r1 r2]]. simpl in Hg, Hd.
  rewrite Z.gcd_1_r in Hg. subst g. destruct Hd as [H1 H2].
  assert (r1 = z) as -> by lia. assert (r2 = 1) as -> by lia. reflexivity.
Qed.

(** A real that is an integer of magnitude below 2^53 rounds to itself,
    under whichever fraction it is presented. *)
Lemma round64_integer (x : Q) (z : Z) :
  (x == inject_Z z)%Q -> Z.abs z < 2 ^ 53 -> round64 x = Fin (inject_Z z).
Proof.
  destruct x as [N D]. unfold Qeq. simpl. rewrite Z.mul_1_r. intros -> Hz.
  unfold round64. simpl Qnum. simpl Qden.
  destruct (z * Z.pos D =? 0) eqn:Hz0.
  - apply Z.eqb_eq in Hz0. assert (z = 0) as -> by nia. reflexivity.
  - apply Z.eqb_neq in Hz0.
    assert (Hw : 0 < Z.abs z) by nia.
    rewrite Z.abs_mul, (Z.abs_eq (Z.pos D)) by lia.
    rewrite ilog2_multiple by lia.
    assert (HL : 0 <= Z.log2 (Z.abs z) < 53).
    { split; [apply Z.log2_nonneg |]. now apply Z.log2_lt_pow2. }
    rewrite Z.max_l by lia.
    assert (Hsgn : Z.sgn (z * Z.pos D) = Z.sgn z)
      by (rewrite Z.sgn_mul; simpl; lia).
    rewrite Hsgn.
    destruct (0 <=? Z.log2 (Z.abs z) - 52) eqn:Hpos.
    + apply Z.leb_le in Hpos.
      replace (Z.log2 (Z.abs z) - 52) with 0 by lia.
      change (2 ^ 0) with 1. rewrite !Z.mul_1_r. rewrite rne_exact by lia.
      replace (2 ^ 1024 <=? Z.abs z) with false.
      * f_equal. f_equal. lia.
      * symmetry. apply Z.leb_gt.
        assert (2 ^ 53 < 2 ^ 1024) by (apply Z.pow_lt_mono_r; lia). lia.
    + apply Z.leb_gt in Hpos.
      set (P := 2 ^ (- (Z.log2 (Z.abs z) - 52))).
      assert (HP : 0 < P) by (subst P; apply Z.pow_pos_nonneg; lia).
      replace (Z.abs z * Z.pos D * P) with (Z.abs z * P * Z.pos D) by ring.
      rewrite rne_exact by lia. f_equal.
      rewrite <- (Qred_inject_Z z). apply Qred_complete.
      unfold Qeq. simpl. rewrite Z2Pos.id by lia. lia.
Qed.

Lemma add_integers (a b : Z) :
  Z.abs (a + b) < 2 ^ 53 -> add (of_Z a) (of_Z b) = of_Z (a + b).
Proof.
  intros H. unfold add, of_Z. apply round64_integer; [| exact H].
  unfold Qeq. simpl. lia.
Qed.

End Exact.

(** *** More on the derivation *)

Section Derivation.
Import Run.

Local Open Scope string_scope.
Local Open Scope Z_scope.

(** X11. The derived pools are the pools of the payload, one for one and
    in the payload's order, each carrying its raw record untouched. *)
Theorem generate_pools_in_order (s : MiningService) (response : Response.t) :
  map DerivedPool.raw (MiningStats.pools (fst (generateMiningStats s response)))
  = PoolsStats.pools (Response.body response)
  /\ length (MiningStats.pools (fst (generateMiningStats s response)))
     = length (PoolsStats.pools (Response.body response)).
Proof.
  rewrite generate_pools. split.
  - rewrite map_map. rewrite <- (map_id (PoolsStats.pools _)) at 2.
    apply map_ext. intros p. apply derivePool_raw.
  - apply length_map.
Qed.




Lemma generate_totalEmptyBlock (s : MiningService) (response : Response.t) :
  MiningStats.totalEmptyBlock (fst (generateMiningStats s response))
  = fold_left (fun prev cur => add prev (or0 (SinglePoolStats.emptyBlocks cur)))
              (PoolsStats.pools (Response.body response)) zero.
Proof. unfold generateMiningStats. cbv zeta. now rewrite !fst_bind. Qed.

Lemma generate_totalEmptyBlockRatio_computed
    (s : MiningService) (response : Response.t) :
  gt0 (num (PoolsStats.blockCount (Response.body response))) = true ->
  MiningStats.totalEmptyBlockRatio (fst (generateMiningStats s response))
  = toFixed2
      (mul (div (MiningStats.totalEmptyBlock (fst (generateMiningStats s response)))
                (num (PoolsStats.blockCount (Response.body response))))
           (of_Z 100)).
Proof.
  intros H. rewrite generate_totalEmptyBlock.
  unfold generateMiningStats. cbv zeta. rewrite !fst_bind. rewrite H.
  now rewrite !fst_bind.
Qed.

Lemma or0_of_Z (c : option Z) : or0 (of_Z <$> c) = of_Z (default 0 c).
Proof.
  destruct c as [v |]; [| reflexivity]. simpl. unfold is_zero. simpl.
  destruct (v =? 0) eqn:Hv; [| reflexivity].
  apply Z.eqb_eq in Hv. now subst v.
Qed.

Lemma sum_nonneg (l : list Z) : Forall (fun c => 0 <= c) l -> 0 <= sum l.
Proof. induction 1 as [| c l Hc _ IH]; simpl; lia. Qed.

Lemma fold_emptyBlocks (pools : list SinglePoolStats.t) :
  forall (counts : list (option Z)) (acc : Z),
    map SinglePoolStats.emptyBlocks pools = map (fmap of_Z) counts ->
    Forall (fun c => 0 <= c) (map (default 0) counts) ->
    0 <= acc -> acc + sum (map (default 0) counts) < 2 ^ 53 ->
    fold_left (fun prev cur => add prev (or0 (SinglePoolStats.emptyBlocks cur)))
              pools (of_Z acc)
    = of_Z (acc + sum (map (default 0) counts)).
Proof.
  induction pools as [| p pools IH]; intros counts acc Hmap Hpos Hacc Hsum.
  - destruct counts; [| discriminate Hmap]. simpl. now rewrite Z.add_0_r.
  - destruct counts as [| c counts]; [discriminate Hmap |].
    simpl in Hmap. injection Hmap as Hp Hrest.
    simpl in Hpos. apply Forall_cons in Hpos. destruct Hpos as [Hc Hpos].
    pose proof (sum_nonneg _ Hpos) as Hs.
    change (sum (map (default 0) (c :: counts)))
      with (default 0 c + sum (map (default 0) counts)) in *.
    cbn [fold_left]. rewrite Hp, or0_of_Z.
    rewrite add_integers by lia.
    rewrite (IH counts (acc + default 0 c) Hrest Hpos) by lia.
    f_equal. lia.
Qed.

(** X13. When the pools' empty-block counts are whole numbers (an absent
    count standing for 0) whose sum is below 2^53, [totalEmptyBlock] is
    exactly that sum: the floating-point additions lose nothing. *)
Theorem totalEmptyBlock_is_the_sum
    (s : MiningService) (response : Response.t) (counts : list (option Z)) :
  map SinglePoolStats.emptyBlocks (PoolsStats.pools (Response.body response))
  = map (fmap of_Z) counts ->
  Forall (fun c => 0 <= c) (map (default 0) counts) ->
  sum (map (default 0) counts) < 2 ^ 53 ->
  MiningStats.totalEmptyBlock (fst (generateMiningStats s response))
  = of_Z (sum (map (default 0) counts)).
Proof.
  intros Hmap Hpos Hsum. rewrite generate_totalEmptyBlock.
  change zero with (of_Z 0).
  now rewrite (fold_emptyBlocks _ counts 0 Hmap Hpos) by lia.
Qed.

Lemma totalEmptyBlock_is_the_sum_witness :
  MiningStats.totalEmptyBlock
    (fst (generateMiningStats Spec.main_service
            (Response.mk
               (PoolsStats.mk (Some (of_Z 9)) None None None
                  [counted (Some 4) (Some 2); counted (Some 5) None;
                   counted None (Some 3)])
               None)))
  = of_Z 5.
Proof.
  apply (totalEmptyBlock_is_the_sum Spec.main_service _ [Some 2; None; Some 3]).
  - reflexivity.
  - repeat constructor; simpl; lia.
  - reflexivity.
Defined.

(** X14. With such whole empty-block counts, when their sum does not
    exceed the payload's block count, the total empty-block ratio, read as
    a number, lies in [0,100]. *)
Theorem totalEmptyBlockRatio_in_range
    (s : MiningService) (response : Response.t)
    (counts : list (option Z)) (total : Q) :
  PoolsStats.blockCount (Response.body response) = Some (Fin total) ->
  map SinglePoolStats.emptyBlocks (PoolsStats.pools (Response.body response))
  = map (fmap of_Z) counts ->
  Forall (fun c => 0 <= c) (map (default 0) counts) ->
  sum (map (default 0) counts) < 2 ^ 53 ->
  (inject_Z (sum (map (default 0%Z) counts)) <= total)%Q ->
  Spec.in_0_100
    (parseFloat
       (MiningStats.totalEmptyBlockRatio (fst (generateMiningStats s response))))
  = true.
Proof.
  intros Hbc Hmap Hpos Hsum Hle.
  destruct (gt0 (num (PoolsStats.blockCount (Response.body response)))) eqn:Hgt.
  - rewrite generate_totalEmptyBlockRatio_computed by exact Hgt.
    rewrite (totalEmptyBlock_is_the_sum s response counts Hmap Hpos Hsum).
    rewrite Hbc in Hgt |- *. simpl num in *. unfold of_Z at 1.
    apply percentage_in_range.
    + pose proof (sum_nonneg _ Hpos). unfold Qle. simpl. lia.
    + exact Hle.
    + unfold gt0 in Hgt. apply Z.ltb_lt in Hgt. unfold Qlt. simpl. lia.
  - rewrite generate_totalEmptyBlockRatio by exact Hgt. reflexivity.
Qed.

Lemma totalEmptyBlockRatio_in_range_witness :
  Spec.in_0_100
    (parseFloat
       (MiningStats.totalEmptyBlockRatio
          (fst (generateMiningStats Spec.main_service
                  (Response.mk Spec.example_payload None)))))
  = true.
Proof.
  apply (totalEmptyBlockRatio_in_range Spec.main_service
           (Response.mk Spec.example_payload None)
           [Some 1; Some 0] (inject_Z 100)).
  - reflexivity.
  - reflexivity.
  - repeat constructor; simpl; lia.
  - reflexivity.
  - discriminate.
Defined.

Lemma read_digits_count (str : string) :
  forall acc cnt, (cnt <= snd (fst (read_digits str acc cnt)))%nat.
Proof.
  induction str as [| c str IH]; intros acc cnt; simpl; [lia |].
  destruct (digit_val c); simpl; [| lia].
  specialize (IH (10 * acc + z) (S cnt)). lia.
Qed.

(** X15. A total-count header made of the decimal digits of a count
    [n < 2^53], the digits followed by nothing or by text that starts with
    no digit, gives [totalBlockCount] exactly [n]. *)
Theorem totalBlockCount_reads_decimal
    (s : MiningService) (response : Response.t) (n : Z) (rest : string) :
  0 <= n < 2 ^ 53 ->
  match rest with String c _ => digit_val c = None | EmptyString => True end ->
  Response.x_total_count response = Some (digits n ++ rest) ->
  MiningStats.totalBlockCount (fst (generateMiningStats s response)) = of_Z n.
Proof.
  intros Hn Hrest Hheader. rewrite generate_totalBlockCount, Hheader.
  destruct (digits_head n rest ltac:(lia)) as (c & str & d & Hhead & Hc).
  destruct (digit_head c d str Hc) as (Htrim & Hsign & _).
  rewrite bool_decide_eq_false_2 by (rewrite Hhead; discriminate).
  unfold parseInt10. rewrite Hhead, Htrim, Hsign.
  pose proof (read_digits_count (String c str) 0 0) as Hcount.
  simpl in Hcount. rewrite Hc in Hcount.
  pose proof (read_digits_count str (10 * 0 + d) 1) as Hcount1.
  rewrite <- Hhead.
  destruct (read_digits_digits n ltac:(lia)) as [L HL].
  assert (Hread : read_digits (digits n ++ rest) 0 0 = (n, L, rest)).
  { rewrite HL. rewrite Z.mul_0_l, Z.add_0_l, Nat.add_0_l.
    destruct rest as [| c' rest']; [reflexivity |].
    simpl. now rewrite Hrest. }
  assert (HL1 : (1 <= L)%nat).
  { rewrite Hhead in Hread. simpl in Hread. rewrite Hc in Hread.
    rewrite Hread in Hcount1. exact Hcount1. }
  rewrite Hread. destruct L as [| L]; [lia |].
  apply round64_integer; [reflexivity | lia].
Qed.

Lemma totalBlockCount_reads_decimal_witness :
  MiningStats.totalBlockCount
    (fst (generateMiningStats Spec.main_service
            (Response.mk Spec.blank_payload (Some "1234 pools"))))
  = of_Z 1234.
Proof.
  apply (totalBlockCount_reads_decimal Spec.main_service
           (Response.mk Spec.blank_payload (Some "1234 pools")) 1234 " pools").
  - lia.
  - reflexivity.
  - reflexivity.
Defined.








Lemma derivePool_logo
    (stats : PoolsStats.t) (safeCount hashrateDivider : number)
    (poolStat : SinglePoolStats.t) :
  DerivedPool.logo (fst (derivePool stats safeCount hashrateDivider poolStat))
  = logo_of (SinglePoolStats.slug poolStat).
Proof. unfold derivePool. now rewrite !fst_bind. Qed.

Lemma length_append (a b : string) :
  String.length (a ++ b) = (String.length a + String.length b)%nat.
Proof. induction a as [| c a IH]; simpl; [reflexivity | now rewrite IH]. Qed.

Lemma append_same_length_suffix (a : string) :
  forall b e f,
    String.length e = String.length f -> a ++ e = b ++ f -> a = b /\ e = f.
Proof.
  induction a as [| c a IH]; intros b e f Hlen Heq.
  - destruct b as [| c' b]; [now split |].
    change (e = String c' (b ++ f)) in Heq. subst e. simpl in Hlen.
    rewrite length_append in Hlen. lia.
  - destruct b as [| c' b].
    + change (String c (a ++ e) = f) in Heq. subst f. simpl in Hlen.
      rewrite length_append in Hlen. lia.
    + change (String c (a ++ e) = String c' (b ++ f)) in Heq.
      injection Heq as -> Heq.
      destruct (IH b e f Hlen Heq) as [-> ->]. now split.
Qed.

Lemma logo_of_inj (a b : string) : logo_of (Some a) = logo_of (Some b) -> a = b.
Proof.
  unfold logo_of. simpl default. intros H.
  apply (inj (String.app "/resources/mining-pools/")) in H.
  apply append_same_length_suffix in H; [tauto |].
  repeat case_bool_decide; reflexivity.
Qed.

(** X19. Two derived pools whose raw records both have a slug get the same
    logo path only when the slugs are the same; a pool without slug,
    however, gets the path of the slug "undefined". *)
Theorem logo_determines_slug
    (s : MiningService) (response : Response.t) (d1 d2 : DerivedPool.t)
    (slug1 slug2 : string) :
  In d1 (MiningStats.pools (fst (generateMiningStats s response))) ->
  In d2 (MiningStats.pools (fst (generateMiningStats s response))) ->
  SinglePoolStats.slug (DerivedPool.raw d1) = Some slug1 ->
  SinglePoolStats.slug (DerivedPool.raw d2) = Some slug2 ->
  (DerivedPool.logo d1 = DerivedPool.logo d2 -> slug1 = slug2)
  /\ logo_of None = logo_of (Some "undefined").
Proof.
  intros H1 H2. rewrite generate_pools in H1, H2.
  apply in_map_iff in H1, H2.
  destruct H1 as (p1 & <- & _). destruct H2 as (p2 & <- & _).
  rewrite !derivePool_raw, !derivePool_logo. intros -> ->.
  split; [apply logo_of_inj | reflexivity].
Qed.

Lemma logo_determines_slug_witness :
  match
    MiningStats.pools
      (fst (generateMiningStats Spec.main_service
              (Response.mk
                 (PoolsStats.mk (Some (of_Z 2)) None None None
                    [SinglePoolStats.mk "1" None (Some "unknown") (Some (of_Z 1)) None;
                     SinglePoolStats.mk "2" None (Some "viabtc") (Some (of_Z 1)) None])
                 None)))
  with
  | [d1; d2] => DerivedPool.logo d1 = DerivedPool.logo d2 -> "unknown" = "viabtc"
  | _ => False
  end.
Proof.
  pose proof (logo_determines_slug Spec.main_service
           (Response.mk
              (PoolsStats.mk (Some (of_Z 2)) None None None
                 [SinglePoolStats.mk "1" None (Some "unknown") (Some (of_Z 1)) None;
                  SinglePoolStats.mk "2" None (Some "viabtc") (Some (of_Z 1)) None])
              None)) as H.
  destruct (MiningStats.pools _) as [| d1 [| d2 [| d3 rest]]] eqn:E;
    try (vm_compute in E; discriminate E).
  apply (H d1 d2 "unknown" "viabtc").
  - now left.
  - right. now left.
  - vm_compute in E. injection E as <- _. reflexivity.
  - vm_compute in E. injection E as _ <-. reflexivity.
Defined.

End Derivation.

(** *** More on the time window *)

Section Timespan.

Local Open Scope string_scope.
Local Open Scope Z_scope.

Lemma rank_at_least (l : list string) (x : string) : -1 <= Spec.rank l x.
Proof.
  unfold Spec.rank. destruct (list_find (fun y => y = x) l) as [[j z] |]; lia.
Qed.

(** X20. For a floor that is one of the ten tokens, [getDefaultTimespan]
    always returns one of the ten tokens, and one that ranks at or after
    the floor, whatever is stored as the preference. *)
Theorem getDefaultTimespan_listed_and_not_below
    (s : MiningService) (min : string) :
  In min timespans ->
  In (getDefaultTimespan s min) timespans
  /\ Spec.rank timespans min <= Spec.rank timespans (getDefaultTimespan s min).
Proof.
  intros Hmin. unfold getDefaultTimespan. rewrite !indexOf_rank.
  set (preference := default "1w" (miningWindowPreference s)).
  pose proof (rank_present _ _ Hmin) as Hrank.
  destruct (Spec.rank timespans preference <? Spec.rank timespans min) eqn:Hlt.
  - split; [exact Hmin | lia].
  - apply Z.ltb_ge in Hlt. split; [| exact Hlt].
    destruct (in_dec string_dec preference timespans) as [Hin | Hout];
      [exact Hin |].
    rewrite (rank_absent _ _ Hout) in Hlt. lia.
Qed.

Lemma getDefaultTimespan_listed_and_not_below_witness :
  In (getDefaultTimespan (constructor "" (Some "nonsense")) "6m") timespans.
Proof.
  apply (getDefaultTimespan_listed_and_not_below
           (constructor "" (Some "nonsense")) "6m").
  simpl. tauto.
Defined.

(** X21. A floor that is none of the ten tokens is no floor at all:
    [getDefaultTimespan] then returns the stored preference as it is, or
    "1w" when none is stored, even when that preference is no token
    either. *)
Theorem getDefaultTimespan_unknown_floor (s : MiningService) (min : string) :
  ~ In min timespans ->
  getDefaultTimespan s min = default "1w" (miningWindowPreference s).
Proof.
  intros Hmin. unfold getDefaultTimespan. rewrite !indexOf_rank.
  rewrite (rank_absent _ _ Hmin).
  pose proof (rank_at_least timespans (default "1w" (miningWindowPreference s))).
  now replace (Spec.rank timespans (default "1w" (miningWindowPreference s)) <? -1)
    with false by (symmetry; apply Z.ltb_ge; lia).
Qed.

Lemma getDefaultTimespan_unknown_floor_witness :
  getDefaultTimespan (constructor "" (Some "2h")) "1d" = "2h".
Proof.
  apply (getDefaultTimespan_unknown_floor (constructor "" (Some "2h")) "1d").
  simpl. intros H. repeat (destruct H as [H | H]; [discriminate H |]). exact H.
Defined.

End Timespan.
